(** * Server-side chat handlers (src/server/handlers.js)
      and the chat room view of the client
      (src/chat-client/src/views/Chatroom/Chatroom.tsx)

    A shallow embedding of the connection handlers of the chat server and
    of the event pipeline [handleEvent] they share, and of the component
    that joins a room, shows its chats and sends messages.  The handlers
    are translated from [src/server/handlers.js]; the two managers and the
    chatroom objects they call are not part of the sources at hand and are
    modelled from the specification (sections 4.1 and 4.2).

    JavaScript values are kept as the handlers see them: [undefined] is
    [None], a payload argument is [Undefined], [Null] or an object, the
    truthiness test of [ensureExists] is written out, and template
    literals render [undefined] as the nine letters of that word. *)

From stdpp Require Import gmap strings list fin_maps.

Open Scope string_scope.
Open Scope list_scope.

(** ** JavaScript values *)

(** An argument that the handler destructures: [undefined] and [null]
    cannot be destructured, anything else can (a missing field reads as
    [undefined]). *)
Inductive Arg (A : Type) : Type :=
| Undefined
| Null
| Obj (a : A).
Arguments Undefined {A}.
Arguments Null {A}.
Arguments Obj {A} a.

(** The test [res ? ... : ...]. *)
Class Truthy (A : Type) := truthy : A → bool.

(** A string is falsy exactly when it is empty. *)
#[global] Instance string_truthy : Truthy string :=
  λ s, match s with EmptyString => false | String _ _ => true end.

(** [`${v}`] for a value that is a string or [undefined]. *)
Definition template (v : option string) : string :=
  match v with
  | Some s => s
  | None => "undefined"
  end.

(** ** Data model *)

(** The socket of the connection; the handlers read [client.id] only. *)
Record Client := mkClient { client_id : string }.

(** What [createEntry()] returns: [{ event }] or [{ message }]. *)
Record EntryFields := mkFields {
  fEvent : option string;
  fMessage : option string
}.

(** An entry of a chat history (interface [IChat]):
    [{ clientId, userName, timestamp, ...createEntry() }]. *)
Record ChatEntry := mkEntry {
  clientId : string;
  userName : string;
  timestamp : string;
  event : option string;
  message : option string
}.

(** The broadcast payload [{ chat: chatroomName, ...entry }]. *)
Record Broadcast := mkBroadcast {
  chat : option string;
  entry : ChatEntry
}.

(** Modelled from the spec: the chatroom object (section 3: an ordered,
    append-only history and a set of member connection ids). *)
Record Chatroom := mkChatroom {
  chatHistory : list ChatEntry;
  members : gset string
}.

(** An object is always truthy. *)
#[global] Instance chatroom_ref_truthy : Truthy (string * Chatroom) := λ _, true.

(** Modelled from the spec: a room summary of [serializeChatrooms]
    (section 4.2: name, member count, history length). *)
Record Summary := mkSummary {
  name : string;
  memberCount : nat;
  historyLength : nat
}.

(** A call made on a chatroom object.  A broadcast records the members
    that were delivered the payload. *)
Inductive Call :=
| AddEntry (room : string) (e : ChatEntry)
| BroadcastMessage (room : string) (msg : Broadcast) (receivers : gset string)
| AddUser (room : string) (c : string)
| RemoveUser (room : string) (c : string).

(** The state the handlers share: the registry of [clientManager], the
    rooms of [chatroomManager], and the calls made so far on chatroom
    objects, oldest first. *)
Record World := mkWorld {
  clients : gmap string string;
  chatrooms : gmap string Chatroom;
  trace : list Call
}.

(** ** The chatroom object

    A chatroom object is shared between the store and the handler that
    holds it: it is referred to by the key under which the store owns it,
    and its methods update the store in place.  No operation removes a
    room from the store. *)

Definition with_history (f : list ChatEntry → list ChatEntry) (r : Chatroom) : Chatroom :=
  {| chatHistory := f (chatHistory r); members := members r |}.

Definition with_members (f : gset string → gset string) (r : Chatroom) : Chatroom :=
  {| chatHistory := chatHistory r; members := f (members r) |}.

Definition room_members (chatroom : string) (w : World) : gset string :=
  default ∅ (members <$> chatrooms w !! chatroom).

(** Modelled from the spec: [addEntry(entry)] appends to the history. *)
Definition addEntry (chatroom : string) (e : ChatEntry) (w : World) : World :=
  {| clients := clients w;
     chatrooms := alter (with_history (λ h, h ++ [e])) chatroom (chatrooms w);
     trace := trace w ++ [AddEntry chatroom e] |}.

(** Modelled from the spec: [broadcastMessage(payload)] delivers the
    payload to every member the room has when it is called. *)
Definition broadcastMessage (chatroom : string) (msg : Broadcast) (w : World) : World :=
  {| clients := clients w;
     chatrooms := chatrooms w;
     trace := trace w ++ [BroadcastMessage chatroom msg (room_members chatroom w)] |}.

(** Modelled from the spec: [getChatHistory()] returns the full history. *)
Definition getChatHistory (chatroom : string) (w : World) : list ChatEntry :=
  default [] (chatHistory <$> chatrooms w !! chatroom).

(** Modelled from the spec: [addUser(client)] adds the connection to the
    member set; adding a member twice changes nothing. *)
Definition addUser (chatroom : string) (client : Client) (w : World) : World :=
  {| clients := clients w;
     chatrooms := alter (with_members (λ m, m ∪ {[client_id client]})) chatroom (chatrooms w);
     trace := trace w ++ [AddUser chatroom (client_id client)] |}.

(** Modelled from the spec: [removeUser(clientId)] removes the connection
    from the member set; removing a non-member changes nothing. *)
Definition removeUser (chatroom : string) (cid : string) (w : World) : World :=
  {| clients := clients w;
     chatrooms := alter (with_members (λ m, m ∖ {[cid]})) chatroom (chatrooms w);
     trace := trace w ++ [RemoveUser chatroom cid] |}.

(** ** The managers *)

Module clientManager.

(** Modelled from the spec: [isNameAvailable(name)] is true iff no
    registered connection holds the name (section 4.1). *)
Definition isUserAvailable (userName : string) (w : World) : bool :=
  bool_decide (map_Forall (λ _ n, n ≠ userName) (clients w)).

(** Modelled from the spec: [register(connectionId, name)] binds the
    name, overwriting a previous binding of the connection. *)
Definition registerClient (client : Client) (userName : string) (w : World) : World :=
  {| clients := <[client_id client := userName]> (clients w);
     chatrooms := chatrooms w;
     trace := trace w |}.

(** Modelled from the spec: [getNameByConnectionId(connectionId)]
    returns the name, or the absent marker. *)
Definition getUserByClientId (cid : string) (w : World) : option string :=
  clients w !! cid.

(** Modelled from the spec: [remove(connectionId)] erases the binding
    and does nothing when there is none. *)
Definition removeClient (client : Client) (w : World) : World :=
  {| clients := delete (client_id client) (clients w);
     chatrooms := chatrooms w;
     trace := trace w |}.

End clientManager.

Module chatroomManager.

(** Modelled from the spec: [getByName(name)] returns the room of that
    name, or the absent marker; [undefined] names no room. *)
Definition getChatroomByName (chatroomName : option string) (w : World)
  : option (string * Chatroom) :=
  n ← chatroomName; r ← chatrooms w !! n; Some (n, r).

(** Modelled from the spec: [listSerialized()] gives one summary per
    room. *)
Definition serializeChatrooms (w : World) : list Summary :=
  (λ kv, {| name := kv.1;
            memberCount := size (members kv.2);
            historyLength := length (chatHistory kv.2) |})
    <$> map_to_list (chatrooms w).

(** Modelled from the spec: [roomsContaining(connectionId)] is a
    snapshot of the rooms that have the connection as a member. *)
Definition getChatroomsByClientId (cid : string) (w : World) : list (string * Chatroom) :=
  filter (λ kv, cid ∈ members kv.2) (map_to_list (chatrooms w)).

(** Modelled from the spec: the store-wide [removeMember(connectionId)]
    removes the connection from the member set of every room. *)
Definition removeClient (client : Client) (w : World) : World :=
  {| clients := clients w;
     chatrooms := with_members (λ m, m ∖ {[client_id client]}) <$> chatrooms w;
     trace := trace w |}.

End chatroomManager.

(** ** The event pipeline: [makeHandleEvent] *)

(** A promise that is settled when it is returned: rejected with a
    message, or resolved with a value. *)
Definition Settled (A : Type) : Type := string + A.

(** [ensureExists(getter, rejectionMessage)]: the executor runs the getter
    at once and tests its result for truthiness. *)
Definition ensureExists {A} `{Truthy A} (getter : unit → option A)
    (rejectionMessage : string) : Settled A :=
  match getter () with
  | Some res => if truthy res then inr res else inl rejectionMessage
  | None => inl rejectionMessage
  end.

Definition ensureUser (w : World) (clientId : string) : Settled string :=
  ensureExists (λ _, clientManager.getUserByClientId clientId w)
    "Register username to chat.".

Definition ensureValidChatroom (w : World) (chatroomName : option string)
  : Settled (string * Chatroom) :=
  ensureExists (λ _, chatroomManager.getChatroomByName chatroomName w)
    ("Invalid chatroom name: " +:+ template chatroomName).

(** [Promise.all([p1, p2])] of two promises that are already settled: it
    rejects with the reason of the first rejected one in array order. *)
Definition promise_all {A B} (p1 : Settled A) (p2 : Settled B) : Settled (A * B) :=
  match p1, p2 with
  | inl reason, _ => inl reason
  | inr _, inl reason => inl reason
  | inr a, inr b => inr (a, b)
  end.

(** What [ensureValidChatroomAndUser] resolves with; [vChatroom] is the
    key of the room object. *)
Record Validated := mkValidated {
  vChatroom : string;
  vUserName : string;
  vClientId : string
}.

Definition ensureValidChatroomAndUser (client : Client) (chatroomName : option string)
    (w : World) : Settled Validated :=
  match promise_all (ensureValidChatroom w chatroomName) (ensureUser w (client_id client)) with
  | inl reason => inl reason
  | inr (chatroom, userName) =>
      inr {| vChatroom := chatroom.1; vUserName := userName; vClientId := client_id client |}
  end.

(** The callback that [handleEvent] passes to [then] (lines 57 to 65).
    [now] is what [new Date().toUTCString()] returns when it runs. *)
Definition handleEvent_then (chatroomName : option string) (createEntry : unit → EntryFields)
    (now : string) (v : Validated) (w : World) : World :=
  let fields := createEntry () in
  let entry := {| clientId := vClientId v; userName := vUserName v; timestamp := now;
                  event := fEvent fields; message := fMessage fields |} in
  let w := addEntry (vChatroom v) entry w in
  broadcastMessage (vChatroom v) {| chat := chatroomName; entry := entry |} w.

(** [handleEvent(chatroomName, createEntry)], run to completion with no
    other work in between: it settles with the chatroom or with the
    rejection message. *)
Definition handleEvent (client : Client) (chatroomName : option string)
    (createEntry : unit → EntryFields) (now : string) (w : World) : Settled string * World :=
  match ensureValidChatroomAndUser client chatroomName w with
  | inl reason => (inl reason, w)
  | inr v => (inr (vChatroom v), handleEvent_then chatroomName createEntry now v w)
  end.

(** ** The handlers *)

(** What a handler does with its [callback]: [callback(err)] and
    [callback(null, result)] are [Callback] with the absent argument
    [None]; a handler that destructures [undefined] or [null] throws a
    [TypeError] and calls nothing. *)
Inductive Outcome (A : Type) : Type :=
| Callback (err : option string) (result : option A)
| NoCallback
| TypeError.
Arguments Callback {A} err result.
Arguments NoCallback {A}.
Arguments TypeError {A}.

(** The identity [{ id: client.id, userName }] that registration returns. *)
Record Identity := mkIdentity {
  identity_id : string;
  identity_userName : string
}.

Definition handleRegister (client : Client) (userName : string) (w : World)
  : Outcome Identity * World :=
  if negb (clientManager.isUserAvailable userName w)
  then (Callback (Some ("Username " +:+ userName +:+ " not available")) None, w)
  else
    let w := clientManager.registerClient client userName w in
    (Callback None (Some {| identity_id := client_id client; identity_userName := userName |}), w).

Definition handleJoin (client : Client) (chatroomName : option string) (now : string)
    (w : World) : Outcome (list ChatEntry) * World :=
  let createEntry := λ _ : unit,
    {| fEvent := Some ("joined " +:+ template chatroomName); fMessage := None |} in
  match handleEvent client chatroomName createEntry now w with
  | (inr chatroom, w) =>
      let w := addUser chatroom client w in
      (Callback None (Some (getChatHistory chatroom w)), w)
  | (inl reason, w) => (Callback (Some reason) None, w)
  end.

Definition handleLeave (client : Client) (chatroomName : option string) (now : string)
    (w : World) : Outcome unit * World :=
  let createEntry := λ _ : unit,
    {| fEvent := Some ("left " +:+ template chatroomName); fMessage := None |} in
  match handleEvent client chatroomName createEntry now w with
  | (inr chatroom, w) =>
      let w := removeUser chatroom (client_id client) w in
      (Callback None None, w)
  | (inl reason, w) => (Callback (Some reason) None, w)
  end.

(** The object that [handleMessage] destructures. *)
Record MessagePayload := mkMessagePayload {
  payload_chatroomName : option string;
  payload_message : option string
}.

(** The default [= {}] replaces [undefined] only; [null] is destructured
    as it is, which throws. *)
Definition handleMessage (client : Client) (payload : Arg MessagePayload) (now : string)
    (w : World) : Outcome unit * World :=
  let destructured :=
    match payload with
    | Undefined => Some {| payload_chatroomName := None; payload_message := None |}
    | Null => None
    | Obj o => Some o
    end in
  match destructured with
  | None => (TypeError, w)
  | Some o =>
      let createEntry := λ _ : unit, {| fEvent := None; fMessage := payload_message o |} in
      match handleEvent client (payload_chatroomName o) createEntry now w with
      | (inr _, w) => (Callback None None, w)
      | (inl reason, w) => (Callback (Some reason) None, w)
      end
  end.

(** The object that [handleGetChatrooms] destructures. *)
Record ChatroomsQuery := mkChatroomsQuery {
  chatroomNameFilter : option string
}.

(** [chatroomNameFilter ? c.name === chatroomNameFilter : true]. *)
Definition filter_keeps (chatroomNameFilter : option string) (c : Summary) : bool :=
  match chatroomNameFilter with
  | Some f => if truthy f then bool_decide (name c = f) else true
  | None => true
  end.

(** There is no default here: [undefined] and [null] throw. *)
Definition handleGetChatrooms (query : Arg ChatroomsQuery) (w : World)
  : Outcome (list Summary) * World :=
  match query with
  | Obj q =>
      let chatrooms :=
        List.filter (filter_keeps (chatroomNameFilter q)) (chatroomManager.serializeChatrooms w) in
      (Callback None (Some chatrooms), w)
  | Undefined | Null => (TypeError, w)
  end.

(** The body is a bare [return]. *)
Definition handleCreateChatroom (chatroomName : option string) (w : World)
  : Outcome unit * World :=
  (NoCallback, w).

(** [handleDisconnect].  The [forEach] starts one [handleEvent] per room
    and drops the promises.  Each of these calls runs its two getters at
    once, inside the [Promise] executors, but reaches the callback that
    appends and broadcasts only through the chain of [Promise.all] and
    three [then] links.  [forEach] returns [undefined], so the [await]
    resumes on the next turn of the job queue, before any of those
    callbacks: the two [removeClient] calls come first, and the pending
    callbacks then run in the order of their calls, on the room objects
    and the user name that the validation resolved.  A call whose
    validation is rejected changes nothing in the world; its promise is
    among the dropped ones and no handler is ever attached to it, so the
    rejection stays unhandled ([handleDisconnect_unhandled] below).
    [now c] is the timestamp read by the callback of room [c];
    [resume_leave] is the pending callback of one room, if its
    validation resolved. *)
Definition resume_leave (now : string → string) (w : World)
    (p : string * Settled Validated) : World :=
  match p.2 with
  | inr v =>
      handleEvent_then (Some p.1)
        (λ _, {| fEvent := Some ("left " +:+ template (Some p.1)); fMessage := None |})
        (now p.1) v w
  | inl _ => w
  end.

Definition handleDisconnect (client : Client) (now : string → string) (w : World) : World :=
  let rooms := chatroomManager.getChatroomsByClientId (client_id client) w in
  let pending :=
    (λ c : string * Chatroom,
       (c.1, ensureValidChatroomAndUser client (Some c.1) w)) <$> rooms in
  let w := chatroomManager.removeClient client w in
  let w := clientManager.removeClient client w in
  foldl (resume_leave now) w pending.

(** The rejections that [handleDisconnect] leaves unhandled: the callback
    given to [forEach] returns the promise of [handleEvent] and [forEach]
    discards it (line 179), where [handleJoin], [handleLeave] and
    [handleMessage] end their chain with [catch(callback)].  One reason
    per room whose validation is rejected, in the order of the rooms. *)
Definition handleDisconnect_unhandled (client : Client) (w : World) : list string :=
  omap (λ c : string * Chatroom,
          match ensureValidChatroomAndUser client (Some c.1) w with
          | inl reason => Some reason
          | inr _ => None
          end)
       (chatroomManager.getChatroomsByClientId (client_id client) w).

(** ** Requests

    One request of a connection, served to completion before the next
    one is taken up.  The handlers that go through [handleEvent] are
    asynchronous: a request that arrives while the callbacks of another
    are still pending is not a step of [serve]. *)
Inductive Request :=
| Register (userName : string)
| Join (chatroomName : option string) (now : string)
| Leave (chatroomName : option string) (now : string)
| Message (payload : Arg MessagePayload) (now : string)
| GetChatrooms (query : Arg ChatroomsQuery)
| CreateChatroom (chatroomName : option string)
| Disconnect (now : string → string).

Definition serve (client : Client) (r : Request) (w : World) : World :=
  match r with
  | Register userName => (handleRegister client userName w).2
  | Join chatroomName now => (handleJoin client chatroomName now w).2
  | Leave chatroomName now => (handleLeave client chatroomName now w).2
  | Message payload now => (handleMessage client payload now w).2
  | GetChatrooms query => (handleGetChatrooms query w).2
  | CreateChatroom chatroomName => (handleCreateChatroom chatroomName w).2
  | Disconnect now => handleDisconnect client now w
  end.

(** The worlds that requests lead to from [w0]. *)
Inductive reachable (w0 : World) : World → Prop :=
| reachable_start : reachable w0 w0
| reachable_serve w client r : reachable w0 w → reachable w0 (serve client r w).

(** ** The chat room view of the client

    The component [Chatroom] of
    [src/chat-client/src/views/Chatroom/Chatroom.tsx]: its state, what
    each of its callbacks does to the state, the calls it makes on the
    socket client and on the notification store, and what it renders.
    A callback runs on the state that the previous one has left: the
    callbacks come from the socket and from a timer, one at a time.
    The component handles chats and room descriptions without looking
    into them, so both are type parameters here. *)
Module ChatroomView.

Section component.
Context {IChat IChatroom : Type}.

(** [IChatroomState]. *)
Record State := mkState {
  roomName : string;
  room : option IChatroom;
  failedToJoin : bool;
  isLoading : bool;
  chatHistory : list IChat
}.

(** A call on [props.socket.client], on [props.notifyStore], or
    [setTimeout]. *)
Inductive Cmd :=
| SetTimeout (ms : nat)
| RegisterHandler
| UnregisterHandler
| Join (roomName : string)
| Leave (roomName : string)
| Message (roomName message : string)
| GetChatroomByName (roomName : string)
| ShowError (err : string).

(** What [render] returns: the loading indicator with its text, the
    failure text, or the chat with the room passed to [ChatHeader] and
    the chats passed to [ChatBox]. *)
Inductive View :=
| Loading (text : string)
| Failed (text : string)
| Chat (chatroom : option IChatroom) (chats : list IChat).

(** The constructor; [name] is [props.match.params.name]. *)
Definition constructor (name : string) : State * list Cmd :=
  ({| roomName := name; room := None; failedToJoin := false; isLoading := true;
      chatHistory := [] |},
   [SetTimeout 1500]).

Definition componentDidMount (s : State) : State * list Cmd :=
  (s, [RegisterHandler; Join (roomName s)]).

(** The handler registered by [componentDidMount]. *)
Definition onChat (chat : IChat) (s : State) : State * list Cmd :=
  ({| roomName := roomName s; room := room s; failedToJoin := failedToJoin s;
      isLoading := isLoading s; chatHistory := chatHistory s ++ [chat] |}, []).

(** The callback passed to [join]; [err] is [null] or a string. *)
Definition onJoined (err : option string) (chats : list IChat) (s : State)
  : State * list Cmd :=
  match err with
  | Some e =>
      if truthy e
      then ({| roomName := roomName s; room := room s; failedToJoin := true;
               isLoading := isLoading s; chatHistory := [] |}, [ShowError e])
      else ({| roomName := roomName s; room := room s; failedToJoin := failedToJoin s;
               isLoading := isLoading s; chatHistory := chats |}, [])
  | None =>
      ({| roomName := roomName s; room := room s; failedToJoin := failedToJoin s;
          isLoading := isLoading s; chatHistory := chats |}, [])
  end.

(** [getChatroomInfo], called when the timeout fires. *)
Definition getChatroomInfo (s : State) : State * list Cmd :=
  (s, [GetChatroomByName (roomName s)]).

(** The callback passed to [getChatroomByName]: [rooms[0] || undefined]. *)
Definition onChatroomInfo (err : option string) (rooms : list IChatroom) (s : State)
  : State * list Cmd :=
  ({| roomName := roomName s; room := head rooms; failedToJoin := failedToJoin s;
      isLoading := false; chatHistory := chatHistory s |}, []).

Definition onMessageSend (message : string) (s : State) : State * list Cmd :=
  (s, [Message (roomName s) message]).

Definition componentWillUnmount (s : State) : State * list Cmd :=
  (s, UnregisterHandler :: if truthy (roomName s) then [Leave (roomName s)] else []).

Definition render (s : State) : View :=
  if isLoading s then Loading ("Loading " +:+ roomName s +:+ " chats...")
  else if failedToJoin s then Failed ("Failed to join room " +:+ roomName s +:+ " :(")
  else Chat (room s) (chatHistory s).

(** What reaches the mounted component. *)
Inductive Event :=
| TimerFired
| ChatReceived (chat : IChat)
| JoinAnswered (err : option string) (chats : list IChat)
| ChatroomInfoAnswered (err : option string) (rooms : list IChatroom)
| MessageEntered (message : string).

Definition step (ev : Event) (s : State) : State * list Cmd :=
  match ev with
  | TimerFired => getChatroomInfo s
  | ChatReceived chat => onChat chat s
  | JoinAnswered err chats => onJoined err chats s
  | ChatroomInfoAnswered err rooms => onChatroomInfo err rooms s
  | MessageEntered message => onMessageSend message s
  end.

(** The events in turn, with the calls they make. *)
Fixpoint run (evs : list Event) (s : State) : State * list Cmd :=
  match evs with
  | [] => (s, [])
  | ev :: evs =>
      let (s1, cmds1) := step ev s in
      let (s2, cmds2) := run evs s1 in
      (s2, cmds1 ++ cmds2)
  end.

(** The calls of a component from its construction to its unmounting. *)
Definition life (name : string) (evs : list Event) : list Cmd :=
  let (s0, cmds0) := constructor name in
  let (s1, cmds1) := componentDidMount s0 in
  let (s2, cmds2) := run evs s1 in
  let (_, cmds3) := componentWillUnmount s2 in
  cmds0 ++ cmds1 ++ cmds2 ++ cmds3.

(** The room that a call on the socket client names. *)
Definition room_of (c : Cmd) : option string :=
  match c with
  | Join n | Leave n | Message n _ | GetChatroomByName n => Some n
  | _ => None
  end.

Definition is_info (ev : Event) : bool :=
  match ev with
  | ChatroomInfoAnswered _ _ => true
  | _ => false
  end.

End component.

Arguments State : clear implicits.
Arguments View : clear implicits.
Arguments Event : clear implicits.

End ChatroomView.



(** ** Sample worlds *)

Definition ann : Client := {| client_id := "c1" |}.
Definition ben : Client := {| client_id := "c2" |}.

(** Two rooms; [ben] is registered and sits in "general", [ann] is not
    registered. *)
Definition lobby : World :=
  {| clients := {[ "c2" := "ben" ]};
     chatrooms := {[ "general" := {| chatHistory := []; members := {[ "c2" ]} |};
                     "random" := {| chatHistory := []; members := ∅ |} ]};
     trace := [] |}.

(** Registered under the name "" through [handleRegister]. *)
Definition lobby_blank : World := (handleRegister ann "" lobby).2.

(** [ann] registers and joins both rooms. *)
Definition lobby_ann : World :=
  (handleJoin ann (Some "random") "t2"
     (handleJoin ann (Some "general") "t1" (handleRegister ann "ann" lobby).2).2).2.

(** [ann], a member of both rooms, registers again under the name "". *)
Definition lobby_ann_blank : World := (handleRegister ann "" lobby_ann).2.

(** ** Properties of traces and worlds *)

(** Every broadcast in the trace comes after the call that appended its
    entry to the history of the same room. *)
Definition appended_before_broadcast (t : list Call) : Prop :=
  ∀ i room msg receivers,
    t !! i = Some (BroadcastMessage room msg receivers) →
    ∃ j, j < i ∧ t !! j = Some (AddEntry room (entry msg)).

(** Every entry that was broadcast to a room is in the history of that
    room. *)
Definition broadcasts_in_history (w : World) : Prop :=
  ∀ room msg receivers,
    BroadcastMessage room msg receivers ∈ trace w →
    entry msg ∈ getChatHistory room w.

(** Every broadcast was made after its entry was appended, and the entry
    is still in the history of its room. *)
Definition broadcast_sound (w : World) : Prop :=
  appended_before_broadcast (trace w) ∧ broadcasts_in_history w.

(** The entry that the pipeline builds for an event. *)
Definition event_entry (cid u now text : string) : ChatEntry :=
  {| clientId := cid; userName := u; timestamp := now; event := Some text; message := None |}.


(** The leave rule as the specification words it, at one call: whenever
    the connection has a registry binding and the room exists, the notice
    is recorded and broadcast and the member removed afterwards. *)
Definition leave_always_recorded (client : Client) (chatroomName : option string)
    (now : string) (w : World) : Prop :=
  is_Some (clients w !! client_id client) →
  is_Some (chatroomManager.getChatroomByName chatroomName w) →
  ∃ n e receivers w',
    chatroomName = Some n ∧
    handleLeave client chatroomName now w = (Callback None None, w') ∧
    event e = Some ("left " +:+ n) ∧
    trace w' = trace w ++ [AddEntry n e;
                           BroadcastMessage n {| chat := chatroomName; entry := e |} receivers;
                           RemoveUser n (client_id client)] ∧
    e ∈ getChatHistory n w'.

(** The room listing as the specification words it, at one call with a
    name filter: exactly the summaries whose name equals the filter. *)
Definition filter_is_exact_match (f : string) (w : World) : Prop :=
  (handleGetChatrooms (Obj {| chatroomNameFilter := Some f |}) w).1
  = Callback None
      (Some (List.filter (λ c, bool_decide (name c = f)) (chatroomManager.serializeChatrooms w))).

(** ** Further properties of worlds *)

(** No two connections hold the same name (section 3, invariant 1). *)
Definition names_unique (w : World) : Prop :=
  ∀ c1 c2 n, clients w !! c1 = Some n → clients w !! c2 = Some n → c1 = c2.

(** An entry names a non-empty author and carries at most one of
    [event] and [message]. *)
Definition entry_attributed (e : ChatEntry) : Prop :=
  userName e ≠ "" ∧ (event e = None ∨ message e = None).

Definition entries_attributed (w : World) : Prop :=
  ∀ n e, e ∈ getChatHistory n w → entry_attributed e.

(** The summary that [serializeChatrooms] gives for one room. *)
Definition summary_of (n : string) (room : Chatroom) : Summary :=
  {| name := n; memberCount := size (members room);
     historyLength := length (chatHistory room) |}.

(** The second world has the rooms of the first, every history and the
    trace of the first extended at the end. *)
Definition grows (w w' : World) : Prop :=
  dom (chatrooms w') = dom (chatrooms w) ∧
  (∀ n, getChatHistory n w `prefix_of` getChatHistory n w') ∧
  trace w `prefix_of` trace w'.

(** The entry that the pipeline builds for a message. *)
Definition message_entry (cid u now : string) (text : option string) : ChatEntry :=
  {| clientId := cid; userName := u; timestamp := now; event := None; message := text |}.

(** ** The validation step *)

Section validation.
Context (client : Client) (chatroomName : option string) (w : World).

Lemma ensureValid_no_room :
  chatroomManager.getChatroomByName chatroomName w = None →
  ensureValidChatroomAndUser client chatroomName w
  = inl ("Invalid chatroom name: " +:+ template chatroomName).
Proof.
  intros Hroom. unfold ensureValidChatroomAndUser, ensureValidChatroom, ensureExists.
  by rewrite Hroom.
Qed.

Lemma ensureValid_no_user c :
  chatroomManager.getChatroomByName chatroomName w = Some c →
  clientManager.getUserByClientId (client_id client) w = None →
  ensureValidChatroomAndUser client chatroomName w = inl "Register username to chat.".
Proof.
  intros Hroom Huser.
  unfold ensureValidChatroomAndUser, ensureValidChatroom, ensureUser, ensureExists.
  by rewrite Hroom, Huser.
Qed.

Lemma ensureValid_inr v :
  ensureValidChatroomAndUser client chatroomName w = inr v ↔
  ∃ n room u,
    chatroomName = Some n ∧ chatrooms w !! n = Some room ∧
    clients w !! client_id client = Some u ∧ u ≠ "" ∧
    v = {| vChatroom := n; vUserName := u; vClientId := client_id client |}.
Proof.
  unfold ensureValidChatroomAndUser, ensureValidChatroom, ensureUser, ensureExists,
    chatroomManager.getChatroomByName, clientManager.getUserByClientId.
  split.
  - destruct chatroomName as [n|]; simpl; [|done].
    destruct (chatrooms w !! n) as [room|] eqn:Hroom; simpl; [|done].
    destruct (clients w !! client_id client) as [u|] eqn:Huser; simpl; [|done].
    destruct u as [|a u]; simpl; [done|].
    intros [= <-]. by exists n, room, (String a u).
  - intros (n & room & u & -> & Hroom & Huser & Hu & ->). simpl.
    rewrite Hroom, Huser. simpl. by destruct u.
Qed.

End validation.

(** A failed [handleEvent] leaves the world as it was. *)
Lemma handleEvent_inl client chatroomName createEntry now w reason w' :
  handleEvent client chatroomName createEntry now w = (inl reason, w') → w' = w.
Proof.
  unfold handleEvent.
  destruct (ensureValidChatroomAndUser client chatroomName w); by intros [= _ <-].
Qed.

(** C1.  When the room name resolves to no chatroom, [handleEvent] rejects
    with "Invalid chatroom name: <roomName>"; when the room exists and the
    connection has no registry binding, it rejects with "Register username
    to chat."; so a call with a missing room or an unregistered connection
    always fails with one of the two messages.  Every rejected call leaves
    the whole world unchanged: no history gains an entry and the trace
    gains no broadcast. *)
Theorem handleEvent_rejection client chatroomName createEntry now w :
  let r := handleEvent client chatroomName createEntry now w in
  (chatroomManager.getChatroomByName chatroomName w = None →
   r = (inl ("Invalid chatroom name: " +:+ template chatroomName), w)) ∧
  (is_Some (chatroomManager.getChatroomByName chatroomName w) →
   clientManager.getUserByClientId (client_id client) w = None →
   r = (inl "Register username to chat.", w)) ∧
  (chatroomManager.getChatroomByName chatroomName w = None ∨
   clientManager.getUserByClientId (client_id client) w = None →
   ∃ reason,
     r = (inl reason, w) ∧
     (reason = "Invalid chatroom name: " +:+ template chatroomName ∨
      reason = "Register username to chat.")) ∧
  (∀ reason w',
     r = (inl reason, w') →
     w' = w ∧
     (∀ room, getChatHistory room w' = getChatHistory room w) ∧
     trace w' = trace w).
Proof.
  intros r.
  assert (chatroomManager.getChatroomByName chatroomName w = None →
          r = (inl ("Invalid chatroom name: " +:+ template chatroomName), w)) as Hroom.
  { intros Hroom. unfold r, handleEvent. by rewrite ensureValid_no_room. }
  assert (is_Some (chatroomManager.getChatroomByName chatroomName w) →
          clientManager.getUserByClientId (client_id client) w = None →
          r = (inl "Register username to chat.", w)) as Huser.
  { intros [c Hc] Hu. unfold r, handleEvent. by erewrite ensureValid_no_user. }
  split_and!; [done | done | |].
  - destruct (chatroomManager.getChatroomByName chatroomName w) as [c|] eqn:Hc.
    + intros [[=]|Hu]. eexists. split; [apply Huser; eauto | by right].
    + intros _. eexists. split; [by apply Hroom | by left].
  - intros reason w' H. by apply handleEvent_inl in H as ->.
Qed.

Lemma handleEvent_rejection_witness :
  handleEvent ann (Some "ghost") (λ _, mkFields None (Some "hi")) "t" lobby
  = (inl "Invalid chatroom name: ghost", lobby) ∧
  handleEvent ann (Some "general") (λ _, mkFields None (Some "hi")) "t" lobby
  = (inl "Register username to chat.", lobby).
Proof.
  split.
  - apply (proj1 (handleEvent_rejection ann (Some "ghost") _ "t" lobby)).
    reflexivity.
  - apply (proj1 (proj2 (handleEvent_rejection ann (Some "general") _ "t" lobby))).
    + eexists. reflexivity.
    + reflexivity.
Defined.

(** ** The mutation step *)

Lemma handleEvent_inr client chatroomName createEntry now w chatroom w' :
  handleEvent client chatroomName createEntry now w = (inr chatroom, w') ↔
  ∃ room u,
    chatroomName = Some chatroom ∧ chatrooms w !! chatroom = Some room ∧
    clients w !! client_id client = Some u ∧ u ≠ "" ∧
    w' = handleEvent_then chatroomName createEntry now
           {| vChatroom := chatroom; vUserName := u; vClientId := client_id client |} w.
Proof.
  unfold handleEvent. split.
  - destruct (ensureValidChatroomAndUser client chatroomName w) as [|v] eqn:Hv; [done|].
    intros [= <- <-]. apply ensureValid_inr in Hv as (n & room & u & ? & ? & ? & ? & ->).
    by exists room, u.
  - intros (room & u & Hn & Hroom & Huser & Hu & ->).
    assert (ensureValidChatroomAndUser client chatroomName w
            = inr {| vChatroom := chatroom; vUserName := u; vClientId := client_id client |})
      as -> by (apply ensureValid_inr; by exists chatroom, room, u).
    done.
Qed.

Lemma getChatHistory_addEntry chatroom e w room :
  chatrooms w !! chatroom = Some room →
  getChatHistory chatroom (addEntry chatroom e w) = chatHistory room ++ [e].
Proof.
  intros Hroom. unfold getChatHistory, addEntry. simpl.
  rewrite lookup_alter_eq, Hroom. done.
Qed.

Lemma getChatHistory_addEntry_ne chatroom e w other :
  other ≠ chatroom →
  getChatHistory other (addEntry chatroom e w) = getChatHistory other w.
Proof.
  intros Hne. unfold getChatHistory, addEntry. simpl. by rewrite lookup_alter_ne.
Qed.

(** Histories only grow along [addEntry]. *)
Lemma getChatHistory_addEntry_mono chatroom e w other x :
  x ∈ getChatHistory other w → x ∈ getChatHistory other (addEntry chatroom e w).
Proof.
  destruct (decide (other = chatroom)) as [->|Hne].
  - unfold getChatHistory at 1. destruct (chatrooms w !! chatroom) as [room|] eqn:Hroom.
    + simpl. intros Hx. erewrite getChatHistory_addEntry by done.
      apply elem_of_app. by left.
    + simpl. by intros ?%elem_of_nil.
  - by rewrite getChatHistory_addEntry_ne.
Qed.

Lemma appended_before_broadcast_snoc t room e msg receivers :
  entry msg = e →
  appended_before_broadcast t →
  appended_before_broadcast (t ++ [AddEntry room e; BroadcastMessage room msg receivers]).
Proof.
  intros <- Ht i room' msg' receivers' Hi.
  destruct (decide (i < length t)) as [Hlt|Hge].
  - rewrite lookup_app_l in Hi by done.
    destruct (Ht _ _ _ _ Hi) as (j & Hj & Hlook).
    exists j. split; [done|]. rewrite lookup_app_l by lia. done.
  - rewrite lookup_app_r in Hi by lia.
    destruct (i - length t) as [|[|k]] eqn:Hk; simpl in Hi; [done| |done].
    injection Hi as <- <- <-.
    exists (length t). split; [lia|].
    rewrite lookup_app_r by lia. by rewrite Nat.sub_diag.
Qed.

Lemma trace_handleEvent_then chatroomName createEntry now v w :
  let e := {| clientId := vClientId v; userName := vUserName v; timestamp := now;
              event := fEvent (createEntry ()); message := fMessage (createEntry ()) |} in
  trace (handleEvent_then chatroomName createEntry now v w)
  = trace w ++ [AddEntry (vChatroom v) e;
                BroadcastMessage (vChatroom v) {| chat := chatroomName; entry := e |}
                  (room_members (vChatroom v) w)].
Proof.
  unfold handleEvent_then, broadcastMessage, addEntry, room_members. simpl.
  rewrite <-app_assoc. simpl. do 4 f_equal.
  destruct (decide (vChatroom v = vChatroom v)) as [_|[]]; [|done].
  rewrite lookup_alter_eq. by destruct (chatrooms w !! vChatroom v).
Qed.

(** The callback of the pipeline keeps every broadcast of the trace
    behind the append of its entry, and every broadcast entry in the
    history of its room. *)
Lemma handleEvent_then_sound chatroomName createEntry now v w :
  is_Some (chatrooms w !! vChatroom v) →
  broadcast_sound w →
  broadcast_sound (handleEvent_then chatroomName createEntry now v w).
Proof.
  intros [room Hroom] [Happ Hhist]. split.
  - rewrite trace_handleEvent_then. by apply appended_before_broadcast_snoc.
  - intros room' msg' receivers'. rewrite trace_handleEvent_then.
    change (getChatHistory room' (handleEvent_then chatroomName createEntry now v w))
      with (getChatHistory room'
              (addEntry (vChatroom v)
                 {| clientId := vClientId v; userName := vUserName v; timestamp := now;
                    event := fEvent (createEntry ()); message := fMessage (createEntry ()) |} w)).
    rewrite elem_of_app, !elem_of_cons, elem_of_nil.
    intros [Hold|[[=]|[[= -> -> ->]|[]]]].
    + apply getChatHistory_addEntry_mono. by eapply Hhist.
    + simpl. erewrite getChatHistory_addEntry by done. apply elem_of_app. right.
      by apply list_elem_of_singleton.
Qed.

(** C2.  A successful [handleEvent] appends the entry it has built to the
    room's history and only then broadcasts it: the broadcast is issued
    in the world that [addEntry] has produced, where the entry is already
    in the history; in the trace the [AddEntry] call stands directly
    before the [BroadcastMessage] call; and the two properties "every
    broadcast follows the append of its entry" and "every broadcast entry
    is in the history of its room" are carried from the world before the
    call to the world after it. *)
Theorem handleEvent_append_then_broadcast client chatroomName createEntry now w chatroom w' :
  handleEvent client chatroomName createEntry now w = (inr chatroom, w') →
  ∃ e,
    let msg := {| chat := chatroomName; entry := e |} in
    let w1 := addEntry chatroom e w in
    e ∈ getChatHistory chatroom w1 ∧
    w' = broadcastMessage chatroom msg w1 ∧
    trace w' = trace w ++ [AddEntry chatroom e;
                           BroadcastMessage chatroom msg (room_members chatroom w)] ∧
    e ∈ getChatHistory chatroom w' ∧
    (broadcast_sound w → broadcast_sound w').
Proof.
  intros (room & u & -> & Hroom & Huser & Hu & ->)%handleEvent_inr.
  set (v := {| vChatroom := chatroom; vUserName := u; vClientId := client_id client |}).
  set (e := {| clientId := client_id client; userName := u; timestamp := now;
               event := fEvent (createEntry ()); message := fMessage (createEntry ()) |}).
  exists e. cbv zeta.
  assert (e ∈ getChatHistory chatroom (addEntry chatroom e w)) as Hin.
  { erewrite getChatHistory_addEntry by done. apply elem_of_app. right.
    by apply list_elem_of_singleton. }
  split_and!; [done | done | apply (trace_handleEvent_then _ _ _ v) | done |].
  apply handleEvent_then_sound. by exists room.
Qed.

Lemma handleEvent_append_then_broadcast_witness :
  let createEntry := λ _ : unit, {| fEvent := None; fMessage := Some "hi" |} in
  let w' := (handleEvent ben (Some "general") createEntry "t" lobby).2 in
  ∃ e,
    e ∈ getChatHistory "general" (addEntry "general" e lobby) ∧
    trace w' = [AddEntry "general" e;
                BroadcastMessage "general" {| chat := Some "general"; entry := e |}
                  (room_members "general" lobby)] ∧
    e ∈ getChatHistory "general" w'.
Proof.
  intros createEntry w'.
  destruct (handleEvent_append_then_broadcast ben (Some "general") createEntry "t" lobby
              "general" w' eq_refl) as (e & Hin & _ & Htrace & Hin' & _).
  exists e. split_and!; done.
Defined.

(** ** Joining *)





(** ** Registering *)

Lemma isUserAvailable_true userName w :
  clientManager.isUserAvailable userName w = true ↔
  ∀ cid, clients w !! cid ≠ Some userName.
Proof.
  unfold clientManager.isUserAvailable. rewrite bool_decide_eq_true, map_Forall_lookup.
  split.
  - intros H cid Hcid. by apply (H cid userName).
  - intros H cid n Hcid ->. by apply (H cid).
Qed.

(** C5.  When the name is not available, [handleRegister] answers
    "Username <name> not available" and the world, registry included, is
    what it was; otherwise the name is bound to the connection and the
    answer is the pair of the connection id and the name.  In both cases
    every room, history and member set is unchanged and the trace gains
    no call, so nothing is broadcast. *)
Theorem handleRegister_outcome client userName w :
  let r := handleRegister client userName w in
  (clientManager.isUserAvailable userName w = false →
   r = (Callback (Some ("Username " +:+ userName +:+ " not available")) None, w)) ∧
  (clientManager.isUserAvailable userName w = true →
   r.1 = Callback None (Some {| identity_id := client_id client;
                                identity_userName := userName |}) ∧
   clients r.2 = <[client_id client := userName]> (clients w) ∧
   clientManager.getUserByClientId (client_id client) r.2 = Some userName) ∧
  chatrooms r.2 = chatrooms w ∧
  trace r.2 = trace w.
Proof.
  unfold handleRegister. destruct (clientManager.isUserAvailable userName w); simpl.
  - split_and!; try done. intros _. split_and!; try done.
    unfold clientManager.getUserByClientId. simpl. apply lookup_insert_eq.
  - split_and!; done.
Qed.

Lemma handleRegister_outcome_witness :
  handleRegister ann "ben" lobby = (Callback (Some "Username ben not available") None, lobby) ∧
  clientManager.getUserByClientId "c1" (handleRegister ann "ann" lobby).2 = Some "ann".
Proof.
  split.
  - apply (proj1 (handleRegister_outcome ann "ben" lobby)). reflexivity.
  - apply (proj1 (proj2 (handleRegister_outcome ann "ann" lobby))). reflexivity.
Defined.

(** ** Leaving *)

(** The leave rule as the specification words it does not hold for a
    connection whose registered name is the empty string. *)
Lemma handleLeave_blank_name_rejected :
  ¬ leave_always_recorded ann (Some "random") "t" lobby_blank.
Proof.
  intros Hclaim. destruct Hclaim as (n & e & receivers & w' & _ & Hleave & _).
  - eexists. reflexivity.
  - eexists. reflexivity.
  - vm_compute in Hleave. discriminate Hleave.
Qed.

(** For a connection registered under a non-empty name and
    an existing room, whether or not the connection is a member of it,
    [handleLeave] appends the entry "left <roomName>" to the room's
    history, broadcasts it to the members the room has at that point, then
    removes the connection from the member set, and answers without an
    error. *)
Theorem handleLeave_recorded client n now w room u :
  chatrooms w !! n = Some room →
  clients w !! client_id client = Some u →
  u ≠ "" →
  let cid := client_id client in
  let e := event_entry cid u now ("left " +:+ n) in
  ∃ w',
    handleLeave client (Some n) now w = (Callback None None, w') ∧
    trace w' = trace w ++ [AddEntry n e;
                           BroadcastMessage n {| chat := Some n; entry := e |} (members room);
                           RemoveUser n cid] ∧
    chatrooms w' = <[n := {| chatHistory := chatHistory room ++ [e];
                             members := members room ∖ {[cid]} |}]> (chatrooms w) ∧
    clients w' = clients w.
Proof.
  intros Hroom Huser Hu cid e. unfold handleLeave.
  pose proof (proj2 (handleEvent_inr client (Some n)
    (λ _, {| fEvent := Some ("left " +:+ template (Some n)); fMessage := None |}) now w n _)
    (ex_intro _ room (ex_intro _ u (conj eq_refl (conj Hroom (conj Huser (conj Hu eq_refl))))))) as ->.
  eexists. split; [reflexivity|].
  unfold removeUser, handleEvent_then, broadcastMessage, addEntry, room_members. simpl.
  split_and!; try done.
  - rewrite lookup_alter_eq, Hroom. simpl. by rewrite <-!app_assoc.
  - apply map_eq. intros k. destruct (decide (k = n)) as [->|Hne].
    + rewrite !lookup_alter_eq, lookup_insert_eq, Hroom. done.
    + rewrite !lookup_alter_ne, lookup_insert_ne by done. done.
Qed.

Lemma handleLeave_recorded_witness :
  let e := event_entry "c2" "ben" "t" "left random" in
  ∃ w',
    handleLeave ben (Some "random") "t" lobby = (Callback None None, w') ∧
    trace w' = [AddEntry "random" e;
                BroadcastMessage "random" {| chat := Some "random"; entry := e |} ∅;
                RemoveUser "random" "c2"].
Proof.
  intros e.
  destruct (handleLeave_recorded ben "random" "t" lobby {| chatHistory := []; members := ∅ |} "ben")
    as (w' & Hleave & Htrace & _); [reflexivity | reflexivity | discriminate |].
  exists w'. split; [exact Hleave | exact Htrace].
Defined.

(** C6.  The code at the failing input.  [handleRegister] accepts the
    empty string as the name of [ann] and answers with the identity, the
    registry then binds the connection, and the room "random" exists;
    yet [handleLeave] on that room answers "Register username to chat."
    and leaves the world as it was: no "left random" entry is recorded
    and nothing is broadcast.  The test [res ? resolve(res) : reject] of
    [ensureExists] takes the empty name for a missing user. *)
Theorem handleLeave_after_blank_register :
  handleRegister ann "" lobby
  = (Callback None (Some {| identity_id := "c1"; identity_userName := "" |}), lobby_blank) ∧
  clientManager.getUserByClientId "c1" lobby_blank = Some "" ∧
  is_Some (chatroomManager.getChatroomByName (Some "random") lobby_blank) ∧
  handleLeave ann (Some "random") "t" lobby_blank
  = (Callback (Some "Register username to chat.") None, lobby_blank) ∧
  getChatHistory "random" (handleLeave ann (Some "random") "t" lobby_blank).2 = [] ∧
  trace (handleLeave ann (Some "random") "t" lobby_blank).2 = [].
Proof.
  split_and!; try reflexivity. eexists. reflexivity.
Qed.

(** ** Sending a message *)

(** [handleEvent] touches neither the registry nor any member set, and
    calls neither [addUser] nor [removeUser]. *)
Lemma handleEvent_frame client chatroomName createEntry now w res w1 :
  handleEvent client chatroomName createEntry now w = (res, w1) →
  (∀ n, members <$> chatrooms w1 !! n = members <$> chatrooms w !! n) ∧
  clients w1 = clients w ∧
  (∀ room c,
     (AddUser room c ∉ drop (length (trace w)) (trace w1)) ∧
     (RemoveUser room c ∉ drop (length (trace w)) (trace w1))).
Proof.
  destruct res as [reason|chatroom]; intros He.
  - apply handleEvent_inl in He as ->. split_and!; try done.
    intros room c. rewrite drop_all. split; apply not_elem_of_nil.
  - apply handleEvent_inr in He as (room & u & Hn & Hroom & Huser & Hu & ->).
    unfold handleEvent_then, broadcastMessage, addEntry. simpl. split_and!; try done.
    + intros n. destruct (decide (n = chatroom)) as [->|Hne].
      * rewrite lookup_alter_eq, Hroom. done.
      * by rewrite lookup_alter_ne.
    + intros room' c. rewrite <-app_assoc, drop_app_length. simpl.
      rewrite !elem_of_cons, !elem_of_nil. split; intros [[=]|[[=]|[]]].
Qed.

(** What [handleMessage] does once the payload is destructured. *)
Lemma handleMessage_destructured client name text now w :
  let r : Outcome unit * World :=
    match handleEvent client name (λ _, {| fEvent := None; fMessage := text |}) now w with
    | (inr _, w1) => (Callback None None, w1)
    | (inl reason, w1) => (Callback (Some reason) None, w1)
    end in
  (∀ n, members <$> chatrooms r.2 !! n = members <$> chatrooms w !! n) ∧
  clients r.2 = clients w ∧
  (∀ room c,
     (AddUser room c ∉ drop (length (trace w)) (trace r.2)) ∧
     (RemoveUser room c ∉ drop (length (trace w)) (trace r.2))) ∧
  (∀ reason result, r.1 = Callback (Some reason) result → r.2 = w) ∧
  (∀ result, r.1 = Callback None result →
     ∃ n room u,
       name = Some n ∧ chatrooms w !! n = Some room ∧
       clients w !! client_id client = Some u ∧ u ≠ "") ∧
  (∀ n room u,
     name = Some n →
     chatrooms w !! n = Some room →
     clients w !! client_id client = Some u →
     u ≠ "" →
     let e := {| clientId := client_id client; userName := u; timestamp := now;
                 event := None; message := text |} in
     r.1 = Callback None None ∧
     getChatHistory n r.2 = chatHistory room ++ [e] ∧
     trace r.2 = trace w ++ [AddEntry n e;
                             BroadcastMessage n {| chat := Some n; entry := e |} (members room)]).
Proof.
  destruct (handleEvent client name (λ _, {| fEvent := None; fMessage := text |}) now w)
    as [res w1] eqn:He.
  destruct (handleEvent_frame _ _ _ _ _ _ _ He) as (Hmem & Hcl & Htr).
  destruct res as [reason|chatroom]; simpl.
  - apply handleEvent_inl in He as Hw. split_and!; try done.
    intros n room u -> Hroom Huser Hu. exfalso. subst w1.
    unfold handleEvent in He.
    assert (ensureValidChatroomAndUser client (Some n) w
            = inr {| vChatroom := n; vUserName := u; vClientId := client_id client |}) as Hv
      by (apply ensureValid_inr; by exists n, room, u).
    by rewrite Hv in He.
  - apply handleEvent_inr in He as (room' & u' & -> & Hroom' & Huser' & Hu' & ->).
    split_and!; try done.
    + intros _ _. by exists chatroom, room', u'.
    + intros n room u [= <-] Hroom Huser Hu.
      rewrite Hroom in Hroom'. injection Hroom' as <-.
      rewrite Huser in Huser'. injection Huser' as <-.
      split_and!; [done | |].
      * unfold getChatHistory, handleEvent_then, broadcastMessage, addEntry. simpl.
        by rewrite lookup_alter_eq, Hroom.
      * rewrite trace_handleEvent_then. unfold room_members. simpl. by rewrite Hroom.
Qed.

(** C7.  Whatever the payload and whether the call succeeds or not,
    [handleMessage] leaves the member set of every room and the registry
    as they were, and its trace gains no [AddUser] or [RemoveUser] call.
    A call that reports an error leaves the whole world unchanged; a
    call that reports success has appended the entry [{ message: text }]
    to the history of the room and broadcast it, and that is what
    happens for every connection registered under a non-empty name and
    every existing room. *)
Theorem handleMessage_keeps_members client payload now w :
  let r := handleMessage client payload now w in
  let sent n text room u :=
    let e := {| clientId := client_id client; userName := u; timestamp := now;
                event := None; message := text |} in
    getChatHistory n r.2 = chatHistory room ++ [e] ∧
    trace r.2 = trace w ++ [AddEntry n e;
                            BroadcastMessage n {| chat := Some n; entry := e |} (members room)] in
  (∀ n, members <$> chatrooms r.2 !! n = members <$> chatrooms w !! n) ∧
  clients r.2 = clients w ∧
  (∀ room c,
     (AddUser room c ∉ drop (length (trace w)) (trace r.2)) ∧
     (RemoveUser room c ∉ drop (length (trace w)) (trace r.2))) ∧
  (∀ reason result, r.1 = Callback (Some reason) result → r.2 = w) ∧
  (∀ result, r.1 = Callback None result →
     ∃ n text room u,
       payload = Obj {| payload_chatroomName := Some n; payload_message := text |} ∧
       chatrooms w !! n = Some room ∧
       clients w !! client_id client = Some u ∧
       sent n text room u) ∧
  (∀ n text room u,
     payload = Obj {| payload_chatroomName := Some n; payload_message := text |} →
     chatrooms w !! n = Some room →
     clients w !! client_id client = Some u →
     u ≠ "" →
     r.1 = Callback None None ∧ sent n text room u).
Proof.
  destruct payload as [| |o].
  - destruct (handleMessage_destructured client None None now w)
      as (Hm & Hc & Ht & Hr & Hs & _).
    split_and!; done.
  - simpl. split_and!; try done.
    intros room c. rewrite drop_all. split; apply not_elem_of_nil.
  - destruct (handleMessage_destructured client (payload_chatroomName o) (payload_message o)
                now w) as (Hm & Hc & Ht & Hr & Hs & Hok).
    split_and!; try done.
    + intros result Hres. destruct (Hs result Hres) as (n & room & u & Hn & Hroom & Huser & Hu).
      exists n, (payload_message o), room, u.
      destruct o as [name text]. simpl in *. subst name.
      split_and!; try done; by apply (Hok n room u).
    + intros n text room u [= ->] Hroom Huser Hu. simpl in Hok.
      by destruct (Hok n room u eq_refl Hroom Huser Hu) as (? & ? & ?).
Qed.

Lemma handleMessage_keeps_members_witness :
  let payload := Obj {| payload_chatroomName := Some "general"; payload_message := Some "hi" |} in
  let r := handleMessage ben payload "t" lobby in
  let e := {| clientId := "c2"; userName := "ben"; timestamp := "t";
              event := None; message := Some "hi" |} in
  r.1 = Callback None None ∧
  getChatHistory "general" r.2 = [e] ∧
  (∀ n, members <$> chatrooms r.2 !! n = members <$> chatrooms lobby !! n).
Proof.
  intros payload r e.
  destruct (handleMessage_keeps_members ben payload "t" lobby) as (Hmem & _ & _ & _ & _ & Hok).
  destruct (Hok "general" (Some "hi") {| chatHistory := []; members := {[ "c2" ]} |} "ben")
    as (Hcb & Hhist & _); [reflexivity | reflexivity | reflexivity | discriminate |].
  split_and!; [exact Hcb | exact Hhist | exact Hmem].
Defined.

(** ** Listing rooms *)

Lemma filter_true {A} (l : list A) : List.filter (λ _, true) l = l.
Proof. induction l as [|x l IH]; simpl; [done | by rewrite IH]. Qed.

(** C8, as stated, fails for the empty string as the name filter: the
    handler treats it as no filter and returns every room, none of which
    is named by the empty string. *)
Lemma handleGetChatrooms_blank_filter :
  ¬ filter_is_exact_match "" lobby.
Proof.
  unfold filter_is_exact_match. vm_compute. discriminate.
Qed.

(** C8, amended.  Called with a payload object, [handleGetChatrooms]
    reports no error and leaves the world unchanged; when the filter is
    absent or the empty string it returns every summary of the store's
    serialization, and with a non-empty filter exactly the summaries
    whose name equals the filter. *)
Theorem handleGetChatrooms_listing q w :
  ∃ result,
    handleGetChatrooms (Obj q) w = (Callback None (Some result), w) ∧
    (chatroomNameFilter q = None ∨ chatroomNameFilter q = Some "" →
     result = chatroomManager.serializeChatrooms w) ∧
    (∀ f, chatroomNameFilter q = Some f → f ≠ "" →
          result = List.filter (λ c, bool_decide (name c = f))
                     (chatroomManager.serializeChatrooms w)).
Proof.
  eexists. split; [reflexivity|]. unfold filter_keeps. split.
  - intros [->| ->]; apply filter_true.
  - intros f -> Hf. destruct f as [|a f]; done.
Qed.

Lemma handleGetChatrooms_listing_witness :
  ∃ result,
    handleGetChatrooms (Obj {| chatroomNameFilter := Some "random" |}) lobby
    = (Callback None (Some result), lobby) ∧
    result = List.filter (λ c, bool_decide (name c = "random"))
               (chatroomManager.serializeChatrooms lobby).
Proof.
  destruct (handleGetChatrooms_listing {| chatroomNameFilter := Some "random" |} lobby)
    as (result & Hcall & _ & Hexact).
  exists result. split; [exact Hcall|].
  apply Hexact; [reflexivity | discriminate].
Defined.

(** ** Payloads that are missing, and the stub *)

(** C9.  [handleMessage] called with no payload falls back to the empty
    object, reads [undefined] as the room name, and answers through the
    callback with "Invalid chatroom name: undefined"; the world is
    unchanged. *)
Theorem handleMessage_undefined_payload client now w :
  handleMessage client Undefined now w
  = (Callback (Some "Invalid chatroom name: undefined") None, w).
Proof. reflexivity. Qed.

(** C10.  [handleCreateChatroom] never calls its callback and returns
    the world it was given: registry, members and histories unchanged. *)
Theorem handleCreateChatroom_noop chatroomName w :
  handleCreateChatroom chatroomName w = (NoCallback, w).
Proof. reflexivity. Qed.

(** ** Disconnecting *)

Lemma room_members_handleEvent_then chatroomName createEntry now v w n :
  room_members n (handleEvent_then chatroomName createEntry now v w) = room_members n w.
Proof.
  unfold room_members, handleEvent_then, broadcastMessage, addEntry. simpl.
  destruct (decide (n = vChatroom v)) as [->|Hne].
  - rewrite lookup_alter_eq. by destruct (chatrooms w !! vChatroom v).
  - by rewrite lookup_alter_ne.
Qed.

(** Pending callbacks whose validation was rejected do nothing. *)
Lemma foldl_resume_leave_rejected now (pending : list (string * Settled Validated)) w :
  Forall (λ p, ∃ reason, p.2 = inl reason) pending →
  foldl (resume_leave now) w pending = w.
Proof.
  induction 1 as [|p pending [reason Hp] _ IH]; simpl; [done|].
  replace (resume_leave now w p) with w; [done|].
  unfold resume_leave. destruct p as [n [?|?]]; simpl in *; [done | discriminate].
Qed.

(** Pending callbacks whose validation resolved append and broadcast one
    entry each, in the order of the rooms. *)
Lemma foldl_resume_leave_resolved now cid u (receivers : string * Chatroom → gset string)
    (rooms : list (string * Chatroom)) w :
  NoDup rooms.*1 →
  Forall (λ c, room_members c.1 w = receivers c) rooms →
  let e n := event_entry cid u (now n) ("left " +:+ n) in
  let w' := foldl (resume_leave now) w
              ((λ c : string * Chatroom,
                  (c.1, inr {| vChatroom := c.1; vUserName := u; vClientId := cid |}
                        : Settled Validated)) <$> rooms) in
  clients w' = clients w ∧
  (∀ k, chatrooms w' !! k
        = (if decide (k ∈ rooms.*1) then with_history (λ h, h ++ [e k]) else id)
            <$> chatrooms w !! k) ∧
  trace w' = trace w ++
    (rooms ≫= λ c, [AddEntry c.1 (e c.1);
                    BroadcastMessage c.1 {| chat := Some c.1; entry := e c.1 |} (receivers c)]).
Proof.
  intros Hnd Hrecv e. revert w Hrecv.
  induction rooms as [|c rooms IH]; intros w Hrecv.
  - simpl. split_and!; [done | | by rewrite app_nil_r].
    intros k. by destruct (chatrooms w !! k).
  - rewrite fmap_cons in Hnd. apply NoDup_cons in Hnd as [Hc Hnd].
    apply Forall_cons in Hrecv as [Hc_recv Hrecv].
    rewrite !fmap_cons, bind_cons. cbn [foldl].
    change (resume_leave now w (c.1, inr {| vChatroom := c.1; vUserName := u; vClientId := cid |}))
      with (handleEvent_then (Some c.1)
              (λ _, {| fEvent := Some ("left " +:+ template (Some c.1)); fMessage := None |})
              (now c.1) {| vChatroom := c.1; vUserName := u; vClientId := cid |} w).
    set (w1 := handleEvent_then _ _ _ _ w).
    destruct (IH Hnd w1) as (Hcl & Hrooms & Htrace).
    { eapply Forall_impl; [exact Hrecv|]. intros c' <-.
      apply room_members_handleEvent_then. }
    assert (chatrooms w1 = alter (with_history (λ h, h ++ [e c.1])) c.1 (chatrooms w)) as Hw1
      by done.
    assert (trace w1 = trace w ++ [AddEntry c.1 (e c.1);
              BroadcastMessage c.1 {| chat := Some c.1; entry := e c.1 |} (receivers c)])
      as Htr1.
    { rewrite <-Hc_recv, <-(room_members_handleEvent_then (Some c.1)
        (λ _, {| fEvent := Some ("left " +:+ template (Some c.1)); fMessage := None |})
        (now c.1) {| vChatroom := c.1; vUserName := u; vClientId := cid |} w c.1).
      unfold w1, handleEvent_then, broadcastMessage. simpl. by rewrite <-app_assoc. }
    split_and!.
    + by rewrite Hcl.
    + intros k. rewrite Hrooms, Hw1.
      destruct (decide (k = c.1)) as [->|Hne].
      * rewrite lookup_alter_eq, (decide_False (P := c.1 ∈ rooms.*1)) by done.
        rewrite decide_True by (apply elem_of_cons; by left).
        by destruct (chatrooms w !! c.1).
      * rewrite lookup_alter_ne by done.
        destruct (decide (k ∈ rooms.*1)) as [Hin|Hout].
        -- by rewrite decide_True by (apply elem_of_cons; by right).
        -- by rewrite decide_False by (intros [?|?]%elem_of_cons; done).
    + rewrite Htrace, Htr1. by rewrite <-app_assoc.
Qed.

(** The snapshot holds exactly the rooms that have the connection as a
    member, each once. *)
Lemma elem_of_getChatroomsByClientId cid w n room :
  (n, room) ∈ chatroomManager.getChatroomsByClientId cid w ↔
  chatrooms w !! n = Some room ∧ cid ∈ members room.
Proof.
  unfold chatroomManager.getChatroomsByClientId.
  rewrite list_elem_of_filter, elem_of_map_to_list. simpl. tauto.
Qed.

Lemma NoDup_getChatroomsByClientId cid w :
  NoDup (chatroomManager.getChatroomsByClientId cid w).*1.
Proof.
  unfold chatroomManager.getChatroomsByClientId.
  apply (sublist_NoDup _ (map_to_list (chatrooms w)).*1).
  - apply NoDup_fst_map_to_list.
  - apply fmap_sublist, sublist_filter.
Qed.

Lemma elem_of_getChatroomsByClientId_fst cid w n :
  n ∈ (chatroomManager.getChatroomsByClientId cid w).*1 ↔
  ∃ room, chatrooms w !! n = Some room ∧ cid ∈ members room.
Proof.
  rewrite list_elem_of_fmap. split.
  - intros ([n' room] & -> & Hin). exists room. by apply elem_of_getChatroomsByClientId.
  - intros (room & Hin). exists (n, room). split; [done|].
    by apply elem_of_getChatroomsByClientId.
Qed.

Section disconnect.
Context (client : Client) (now : string → string) (w : World).

(** With no user to resolve, every pending leave event is rejected and
    only the two [removeClient] calls take effect. *)
Lemma handleDisconnect_rejected :
  clients w !! client_id client = None ∨ clients w !! client_id client = Some "" →
  handleDisconnect client now w
  = clientManager.removeClient client (chatroomManager.removeClient client w).
Proof.
  intros Huser. unfold handleDisconnect. apply foldl_resume_leave_rejected.
  apply Forall_fmap, Forall_forall. intros [n room] Hin. simpl.
  destruct (ensureValidChatroomAndUser client (Some n) w) as [reason|v] eqn:Hv; [by eexists|].
  apply ensureValid_inr in Hv as (? & ? & u & _ & _ & Hu & Hne & _).
  destruct Huser as [Huser|Huser]; rewrite Huser in Hu; congruence.
Qed.

Lemma handleDisconnect_resolved u :
  clients w !! client_id client = Some u → u ≠ "" →
  handleDisconnect client now w
  = foldl (resume_leave now)
      (clientManager.removeClient client (chatroomManager.removeClient client w))
      ((λ c : string * Chatroom,
          (c.1, inr {| vChatroom := c.1; vUserName := u; vClientId := client_id client |}
                : Settled Validated)) <$>
       chatroomManager.getChatroomsByClientId (client_id client) w).
Proof.
  intros Huser Hu. unfold handleDisconnect. f_equal.
  apply Forall_fmap_ext, Forall_forall. intros [n room] Hin. simpl. f_equal.
  apply elem_of_getChatroomsByClientId in Hin as [Hroom _].
  apply ensureValid_inr. by exists n, room, u.
Qed.

Lemma room_members_removed n room :
  chatrooms w !! n = Some room →
  room_members n (clientManager.removeClient client (chatroomManager.removeClient client w))
  = members room ∖ {[client_id client]}.
Proof.
  intros Hroom. unfold room_members. simpl. by rewrite lookup_fmap, Hroom.
Qed.

End disconnect.

(** The world after the disconnect of a connection registered under a
    non-empty name. *)
Lemma handleDisconnect_resolved_world client now w u :
  let cid := client_id client in
  let e n := event_entry cid u (now n) ("left " +:+ n) in
  let w' := handleDisconnect client now w in
  clients w !! cid = Some u → u ≠ "" →
  clients w' = delete cid (clients w) ∧
  (∀ k, chatrooms w' !! k
        = (λ r, {| chatHistory := if decide (cid ∈ members r)
                                  then chatHistory r ++ [e k] else chatHistory r;
                   members := members r ∖ {[cid]} |}) <$> chatrooms w !! k) ∧
  trace w' = trace w ++
    (chatroomManager.getChatroomsByClientId cid w ≫= λ c,
       [AddEntry c.1 (e c.1);
        BroadcastMessage c.1 {| chat := Some c.1; entry := e c.1 |} (members c.2 ∖ {[cid]})]).
Proof.
  intros cid e w' Huser Hu. subst cid e w'.
  rewrite (handleDisconnect_resolved client now w u Huser Hu).
  destruct (foldl_resume_leave_resolved now (client_id client) u
              (λ c, members c.2 ∖ {[client_id client]})
              (chatroomManager.getChatroomsByClientId (client_id client) w)
              (clientManager.removeClient client (chatroomManager.removeClient client w)))
    as (Hcl & Hrooms & Htrace).
  { apply NoDup_getChatroomsByClientId. }
  { apply Forall_forall. intros [n room] Hin.
    apply elem_of_getChatroomsByClientId in Hin as [Hroom _].
    by apply room_members_removed. }
  split_and!; [by rewrite Hcl | | by rewrite Htrace].
  intros k. rewrite Hrooms. simpl. rewrite lookup_fmap.
  destruct (chatrooms w !! k) as [room|] eqn:Hroom; simpl; [|done].
  f_equal. destruct (decide (client_id client ∈ members room)) as [Hin|Hout].
  - rewrite decide_True; [done|]. apply elem_of_getChatroomsByClientId_fst. by exists room.
  - rewrite decide_False; [done|].
    intros (room' & Hroom' & Hin)%elem_of_getChatroomsByClientId_fst. congruence.
Qed.

(** Registry, member sets and untouched histories after a disconnect,
    whatever the world was. *)
Lemma handleDisconnect_cleanup client now w :
  let cid := client_id client in
  let w' := handleDisconnect client now w in
  clients w' = delete cid (clients w) ∧
  ∀ k, ∃ f : Chatroom → list ChatEntry,
    (∀ r, cid ∉ members r → f r = chatHistory r) ∧
    (∀ r x, x ∈ chatHistory r → x ∈ f r) ∧
    chatrooms w' !! k
    = (λ r, {| chatHistory := f r; members := members r ∖ {[cid]} |}) <$> chatrooms w !! k.
Proof.
  intros cid w'.
  destruct (clients w !! cid) as [u|] eqn:Huser;
    [destruct (decide (u = "")) as [->|Hu]|].
  2:{ destruct (handleDisconnect_resolved_world client now w u Huser Hu) as (Hcl & Hrooms & _).
      split; [done|]. intros k. eexists. split_and!; [| |apply Hrooms].
      - intros r Hout. simpl. by rewrite decide_False.
      - intros r x Hx. simpl. case_decide; [|done]. apply elem_of_app. by left. }
  all: unfold w'; rewrite handleDisconnect_rejected by auto.
  all: split; [done|]; intros k; exists chatHistory; split_and!; [done | done |].
  all: simpl; by rewrite lookup_fmap.
Qed.

(** [handleDisconnect] with no other handler of the connection in flight.
    After it the connection id is in the member set
    of no room and has no registry binding, whatever the world was; this
    covers a connection that never registered.  Nothing else changes in
    a member set or in the registry.  For a connection registered under
    a non-empty name, the entry "left <roomName>" is appended to the
    history of every room that contained the connection and broadcast
    to the members that remain, room by room, and to no other room.
    When the validation of the leave events is rejected (no binding, or
    an empty name), no entry is recorded, nothing is broadcast, and the
    two removals are the same. *)
Theorem handleDisconnect_teardown client now w :
  let cid := client_id client in
  let w' := handleDisconnect client now w in
  (∀ n room, chatrooms w' !! n = Some room → cid ∉ members room) ∧
  clientManager.getUserByClientId cid w' = None ∧
  clients w' = delete cid (clients w) ∧
  (∀ n, members <$> chatrooms w' !! n = (λ r, members r ∖ {[cid]}) <$> chatrooms w !! n) ∧
  (∀ u, clients w !! cid = Some u → u ≠ "" →
     let e n := event_entry cid u (now n) ("left " +:+ n) in
     trace w' = trace w ++
       (chatroomManager.getChatroomsByClientId cid w ≫= λ c,
          [AddEntry c.1 (e c.1);
           BroadcastMessage c.1 {| chat := Some c.1; entry := e c.1 |}
             (members c.2 ∖ {[cid]})]) ∧
     (∀ n room, chatrooms w !! n = Some room → cid ∈ members room →
        (n, room) ∈ chatroomManager.getChatroomsByClientId cid w ∧
        getChatHistory n w' = chatHistory room ++ [e n])) ∧
  (∀ n room, chatrooms w !! n = Some room → cid ∉ members room →
     getChatHistory n w' = chatHistory room) ∧
  (clients w !! cid = None ∨ clients w !! cid = Some "" →
     trace w' = trace w ∧ ∀ n, getChatHistory n w' = getChatHistory n w).
Proof.
  intros cid w'.
  destruct (handleDisconnect_cleanup client now w) as [Hcl Hrooms].
  fold cid w' in Hcl, Hrooms.
  split_and!.
  - intros n room Hroom. destruct (Hrooms n) as (f & _ & _ & Hn). rewrite Hroom in Hn.
    destruct (chatrooms w !! n) as [room0|]; simplify_eq/=.
    intros [_ Hne]%elem_of_difference. apply Hne. by apply elem_of_singleton.
  - unfold clientManager.getUserByClientId. rewrite Hcl. apply lookup_delete_eq.
  - done.
  - intros n. destruct (Hrooms n) as (f & _ & _ & ->). by destruct (chatrooms w !! n).
  - intros u Huser Hu e.
    destruct (handleDisconnect_resolved_world client now w u Huser Hu) as (_ & Hw' & Htrace).
    split; [done|]. intros n room Hroom Hin. split.
    + by apply elem_of_getChatroomsByClientId.
    + unfold getChatHistory. fold w' in Hw'. rewrite Hw', Hroom. simpl.
      by rewrite decide_True.
  - intros n room Hroom Hout. destruct (Hrooms n) as (f & Hf & _ & Hn).
    unfold getChatHistory. rewrite Hn, Hroom. simpl. by apply Hf.
  - intros Huser. unfold w'. rewrite handleDisconnect_rejected by done. split; [done|].
    intros n. unfold getChatHistory. simpl. rewrite lookup_fmap.
    by destruct (chatrooms w !! n).
Qed.

Lemma handleDisconnect_teardown_witness :
  let w' := handleDisconnect ann (λ _, "t3") lobby_ann in
  clientManager.getUserByClientId "c1" w' = None ∧
  (∀ n room, chatrooms w' !! n = Some room → "c1" ∉ members room) ∧
  getChatHistory "random" w'
  = [event_entry "c1" "ann" "t2" "joined random"; event_entry "c1" "ann" "t3" "left random"].
Proof.
  intros w'.
  destruct (handleDisconnect_teardown ann (λ _, "t3") lobby_ann)
    as (Hmem & Hreg & _ & _ & Hleft & _).
  split_and!; [exact Hreg | exact Hmem |].
  destruct (Hleft "ann") as [_ Hrooms]; [reflexivity | discriminate |].
  refine (proj2 (Hrooms "random"
    {| chatHistory := [event_entry "c1" "ann" "t2" "joined random"];
       members := {[ "c1" ]} |} _ _)).
  - vm_compute. reflexivity.
  - vm_compute. reflexivity.
Defined.

Lemma reachable_lobby_ann_blank : reachable lobby lobby_ann_blank.
Proof.
  apply (reachable_serve lobby _ ann (Register "")).
  apply (reachable_serve lobby _ ann (Join (Some "random") "t2")).
  apply (reachable_serve lobby _ ann (Join (Some "general") "t1")).
  apply (reachable_serve lobby _ ann (Register "ann")).
  apply reachable_start.
Qed.

(** C4.  The code at the failing input.  [ann] has registered as "ann",
    joined "general" and "random", and registered again under the empty
    name, which [handleRegister] accepted; the connection is a member of
    both rooms and has a binding.  [handleDisconnect] then removes the
    membership and the binding, but no "left" entry is recorded in either
    room and nothing is broadcast: the histories still end with the join
    notices and the trace is what it was.  The two [handleEvent] calls
    were rejected with "Register username to chat.", because
    [ensureExists] takes the empty name for a missing user, and both
    rejections stay unhandled, since the promises are dropped without a
    [catch]. *)
Theorem handleDisconnect_blank_name :
  let w := lobby_ann_blank in
  let w' := handleDisconnect ann (λ _, "t3") w in
  reachable lobby w ∧
  clientManager.getUserByClientId "c1" w = Some "" ∧
  (chatroomManager.getChatroomsByClientId "c1" w).*1 = ["general"; "random"] ∧
  getChatHistory "general" w' = [event_entry "c1" "ann" "t1" "joined general"] ∧
  getChatHistory "random" w' = [event_entry "c1" "ann" "t2" "joined random"] ∧
  trace w' = trace w ∧
  chatroomManager.getChatroomsByClientId "c1" w' = [] ∧
  clientManager.getUserByClientId "c1" w' = None ∧
  handleDisconnect_unhandled ann w
  = ["Register username to chat."; "Register username to chat."].
Proof.
  intros w w'. split; [exact reachable_lobby_ann_blank|].
  split_and!; vm_compute; reflexivity.
Qed.

(** ** Reachable worlds *)

(** Calls other than a broadcast that change no history keep
    [broadcast_sound]. *)
Lemma broadcast_sound_frame w w' extra :
  trace w' = trace w ++ extra →
  (∀ room msg receivers, BroadcastMessage room msg receivers ∉ extra) →
  (∀ n x, x ∈ getChatHistory n w → x ∈ getChatHistory n w') →
  broadcast_sound w → broadcast_sound w'.
Proof.
  intros Htrace Hextra Hhist [Happ Hin]. split.
  - intros i room msg receivers. rewrite Htrace. intros Hi.
    destruct (decide (i < length (trace w))) as [Hlt|Hge].
    + rewrite lookup_app_l in Hi by done.
      destruct (Happ _ _ _ _ Hi) as (j & Hj & Hlook).
      exists j. split; [done|]. by rewrite lookup_app_l by lia.
    + rewrite lookup_app_r in Hi by lia.
      exfalso. eapply Hextra, list_elem_of_lookup_2, Hi.
  - intros room msg receivers. rewrite Htrace, elem_of_app.
    intros [Hold|Hnew]; [|by apply Hextra in Hnew].
    apply Hhist. by eapply Hin.
Qed.

Lemma handleEvent_sound client chatroomName createEntry now w res w1 :
  handleEvent client chatroomName createEntry now w = (res, w1) →
  broadcast_sound w → broadcast_sound w1.
Proof.
  destruct res as [reason|chatroom]; intros He.
  - by apply handleEvent_inl in He as ->.
  - apply handleEvent_inr in He as (room & u & _ & Hroom & _ & _ & ->).
    apply handleEvent_then_sound. by exists room.
Qed.

Lemma foldl_resume_leave_sound now (pending : list (string * Settled Validated)) w :
  Forall (λ p, ∀ v, p.2 = inr v → is_Some (chatrooms w !! vChatroom v)) pending →
  broadcast_sound w →
  broadcast_sound (foldl (resume_leave now) w pending).
Proof.
  revert w. induction pending as [|p pending IH]; intros w Hp Hw; [done|].
  apply Forall_cons in Hp as [Hp Hrest]. cbn [foldl]. apply IH.
  - eapply Forall_impl; [exact Hrest|]. intros q Hq v Hv.
    destruct (Hq v Hv) as [room Hroom]. unfold resume_leave.
    destruct p as [n [reason|v']]; simpl; [by exists room|].
    unfold handleEvent_then, broadcastMessage, addEntry. simpl.
    destruct (decide (vChatroom v = vChatroom v')) as [Heq|Hne].
    + rewrite <-Heq, lookup_alter_eq, Hroom. by eexists.
    + rewrite lookup_alter_ne by done. by exists room.
  - unfold resume_leave. destruct p as [n [reason|v]]; simpl; [done|].
    apply handleEvent_then_sound; [|done]. by apply Hp.
Qed.

Lemma handleDisconnect_sound client now w :
  broadcast_sound w → broadcast_sound (handleDisconnect client now w).
Proof.
  intros Hw. unfold handleDisconnect. apply foldl_resume_leave_sound.
  - apply Forall_fmap, Forall_forall. intros [n room] Hin v. simpl. intros Hv.
    apply ensureValid_inr in Hv as (n' & room' & u & [= <-] & Hroom & _ & _ & ->).
    simpl. rewrite lookup_fmap, Hroom. by eexists.
  - apply (broadcast_sound_frame w _ []); try done.
    + by rewrite app_nil_r.
    + intros ???. apply not_elem_of_nil.
    + intros n x. unfold getChatHistory. simpl. rewrite lookup_fmap.
      by destruct (chatrooms w !! n).
Qed.

(** Serving a request keeps [broadcast_sound]. *)
Lemma serve_sound client r w :
  broadcast_sound w → broadcast_sound (serve client r w).
Proof.
  intros Hw. destruct r as [userName|name now|name now|payload now|query|name|now]; simpl.
  - unfold handleRegister. destruct (negb _); simpl; [done|].
    apply (broadcast_sound_frame w _ []); try done.
    + by rewrite app_nil_r.
    + intros ???. apply not_elem_of_nil.
  - unfold handleJoin.
    destruct (handleEvent client name _ now w) as [[reason|chatroom] w1] eqn:He;
      apply handleEvent_sound in He; try done. simpl.
    apply (broadcast_sound_frame w1 _ [AddUser chatroom (client_id client)]); try done.
    + intros ??? [=]%list_elem_of_singleton.
    + intros n x. unfold getChatHistory, addUser. simpl.
      destruct (decide (n = chatroom)) as [->|Hne].
      * rewrite lookup_alter_eq. by destruct (chatrooms w1 !! chatroom).
      * by rewrite lookup_alter_ne.
  - unfold handleLeave.
    destruct (handleEvent client name _ now w) as [[reason|chatroom] w1] eqn:He;
      apply handleEvent_sound in He; try done. simpl.
    apply (broadcast_sound_frame w1 _ [RemoveUser chatroom (client_id client)]); try done.
    + intros ??? [=]%list_elem_of_singleton.
    + intros n x. unfold getChatHistory, removeUser. simpl.
      destruct (decide (n = chatroom)) as [->|Hne].
      * rewrite lookup_alter_eq. by destruct (chatrooms w1 !! chatroom).
      * by rewrite lookup_alter_ne.
  - unfold handleMessage. destruct payload as [| |o]; [|done|].
    all: match goal with
         | |- context [handleEvent ?c ?n ?ce ?t ?w0] =>
             destruct (handleEvent c n ce t w0) as [[reason|chatroom] w1] eqn:He
         end; by apply handleEvent_sound in He.
  - by destruct query.
  - done.
  - by apply handleDisconnect_sound.
Qed.

(** X18.  In every world that requests lead to from a world with
    [broadcast_sound], each broadcast of the trace comes after the append
    of its entry and the entry is in the history of its room. *)
Theorem reachable_broadcast_sound w0 w :
  broadcast_sound w0 → reachable w0 w → broadcast_sound w.
Proof.
  intros Hw0. induction 1 as [|w client r _ IH]; [done|]. by apply serve_sound.
Qed.

Lemma handleMessage_frame client payload now w :
  (∀ n, members <$> chatrooms (handleMessage client payload now w).2 !! n
        = members <$> chatrooms w !! n) ∧
  clients (handleMessage client payload now w).2 = clients w.
Proof.
  destruct payload as [| |o]; [|done|].
  - destruct (handleMessage_destructured client None None now w) as (Hm & Hc & _). done.
  - destruct (handleMessage_destructured client (payload_chatroomName o) (payload_message o)
                now w) as (Hm & Hc & _). done.
Qed.

Lemma reachable_lobby_ann : reachable lobby lobby_ann.
Proof.
  apply (reachable_serve lobby _ ann (Join (Some "random") "t2")).
  apply (reachable_serve lobby _ ann (Join (Some "general") "t1")).
  apply (reachable_serve lobby _ ann (Register "ann")).
  apply reachable_start.
Qed.

Lemma broadcast_sound_lobby : broadcast_sound lobby.
Proof.
  split.
  - intros i room msg receivers Hi. simpl in Hi. by rewrite lookup_nil in Hi.
  - intros room msg receivers Hin. simpl in Hin. by apply elem_of_nil in Hin.
Qed.

Lemma reachable_broadcast_sound_witness : broadcast_sound lobby_ann.
Proof.
  apply (reachable_broadcast_sound lobby lobby_ann).
  - exact broadcast_sound_lobby.
  - exact reachable_lobby_ann.
Defined.

(** ** Outcomes of the pipeline and of the room handlers *)

(** X1.  [handleEvent] resolves exactly when the name is that of a room and the
    connection is bound to a non-empty name; a connection bound to the
    empty name is turned away like an unregistered one. *)
Theorem handleEvent_resolves_iff client chatroomName createEntry now w :
  ((∃ chatroom w', handleEvent client chatroomName createEntry now w = (inr chatroom, w')) ↔
   (∃ n room u, chatroomName = Some n ∧ chatrooms w !! n = Some room ∧
                clients w !! client_id client = Some u ∧ u ≠ "")) ∧
  (∀ n room,
     chatroomName = Some n → chatrooms w !! n = Some room →
     clients w !! client_id client = Some "" →
     handleEvent client chatroomName createEntry now w
     = (inl "Register username to chat.", w)).
Proof.
  split; [split|].
  - intros (chatroom & w' & He).
    apply handleEvent_inr in He as (room & u & -> & Hroom & Huser & Hu & _).
    by exists chatroom, room, u.
  - intros (n & room & u & -> & Hroom & Huser & Hu).
    exists n. eexists. apply handleEvent_inr. by exists room, u.
  - intros n room -> Hroom Huser.
    unfold handleEvent, ensureValidChatroomAndUser, ensureValidChatroom, ensureUser,
      ensureExists, chatroomManager.getChatroomByName, clientManager.getUserByClientId.
    simpl. by rewrite Hroom, Huser.
Qed.

Lemma handleEvent_resolves_iff_witness :
  (∃ chatroom w', handleEvent ben (Some "random") (λ _, mkFields None None) "t" lobby
                  = (inr chatroom, w')) ∧
  handleEvent ann (Some "random") (λ _, mkFields None None) "t" lobby_blank
  = (inl "Register username to chat.", lobby_blank).
Proof.
  split.
  - apply (proj1 (handleEvent_resolves_iff ben (Some "random") _ "t" lobby)).
    exists "random", {| chatHistory := []; members := ∅ |}, "ben".
    split_and!; [reflexivity | reflexivity | reflexivity | discriminate].
  - apply (proj2 (handleEvent_resolves_iff ann (Some "random") _ "t" lobby_blank)
             "random" {| chatHistory := []; members := ∅ |});
      reflexivity.
Defined.


(** The world after an event that resolves. *)
Lemma handleEvent_resolved client n createEntry now w room u :
  chatrooms w !! n = Some room →
  clients w !! client_id client = Some u →
  u ≠ "" →
  let e := {| clientId := client_id client; userName := u; timestamp := now;
              event := fEvent (createEntry ()); message := fMessage (createEntry ()) |} in
  ∃ w1,
    handleEvent client (Some n) createEntry now w = (inr n, w1) ∧
    chatrooms w1 = <[n := {| chatHistory := chatHistory room ++ [e];
                             members := members room |}]> (chatrooms w) ∧
    clients w1 = clients w ∧
    trace w1 = trace w ++ [AddEntry n e;
                           BroadcastMessage n {| chat := Some n; entry := e |} (members room)].
Proof.
  intros Hroom Huser Hu e. eexists. split.
  { apply handleEvent_inr. by exists room, u. }
  split_and!; [|done|].
  - unfold handleEvent_then, broadcastMessage, addEntry. simpl.
    apply map_eq. intros k. destruct (decide (k = n)) as [->|Hne].
    + by rewrite lookup_alter_eq, lookup_insert_eq, Hroom.
    + by rewrite lookup_alter_ne, lookup_insert_ne by done.
  - rewrite trace_handleEvent_then. unfold room_members. simpl. by rewrite Hroom.
Qed.

Lemma handleJoin_resolved client n now w room u :
  chatrooms w !! n = Some room →
  clients w !! client_id client = Some u →
  u ≠ "" →
  let e := event_entry (client_id client) u now ("joined " +:+ n) in
  ∃ w1,
    handleJoin client (Some n) now w = (Callback None (Some (chatHistory room ++ [e])), w1) ∧
    chatrooms w1 = <[n := {| chatHistory := chatHistory room ++ [e];
                             members := members room ∪ {[client_id client]} |}]> (chatrooms w) ∧
    clients w1 = clients w ∧
    trace w1 = trace w ++ [AddEntry n e;
                           BroadcastMessage n {| chat := Some n; entry := e |} (members room);
                           AddUser n (client_id client)].
Proof.
  intros Hroom Huser Hu e. unfold handleJoin.
  destruct (handleEvent_resolved client n
              (λ _, {| fEvent := Some ("joined " +:+ template (Some n)); fMessage := None |})
              now w room u Hroom Huser Hu) as (w1 & -> & Hrooms & Hcl & Htrace).
  exists (addUser n client w1). split_and!.
  - cbv zeta. do 3 f_equal. unfold getChatHistory, addUser. simpl.
    by rewrite lookup_alter_eq, Hrooms, lookup_insert_eq.
  - unfold addUser. simpl. rewrite Hrooms. apply map_eq. intros k.
    destruct (decide (k = n)) as [->|Hne].
    + by rewrite lookup_alter_eq, !lookup_insert_eq.
    + by rewrite lookup_alter_ne, !lookup_insert_ne by done.
  - done.
  - unfold addUser. simpl. rewrite Htrace. by rewrite <-app_assoc.
Qed.

Lemma handleLeave_resolved client n now w room u :
  chatrooms w !! n = Some room →
  clients w !! client_id client = Some u →
  u ≠ "" →
  let e := event_entry (client_id client) u now ("left " +:+ n) in
  ∃ w1,
    handleLeave client (Some n) now w = (Callback None None, w1) ∧
    chatrooms w1 = <[n := {| chatHistory := chatHistory room ++ [e];
                             members := members room ∖ {[client_id client]} |}]> (chatrooms w) ∧
    clients w1 = clients w ∧
    trace w1 = trace w ++ [AddEntry n e;
                           BroadcastMessage n {| chat := Some n; entry := e |} (members room);
                           RemoveUser n (client_id client)].
Proof.
  intros Hroom Huser Hu e. unfold handleLeave.
  destruct (handleEvent_resolved client n
              (λ _, {| fEvent := Some ("left " +:+ template (Some n)); fMessage := None |})
              now w room u Hroom Huser Hu) as (w1 & -> & Hrooms & Hcl & Htrace).
  exists (removeUser n (client_id client) w1). split_and!; [done | | done |].
  - unfold removeUser. simpl. rewrite Hrooms. apply map_eq. intros k.
    destruct (decide (k = n)) as [->|Hne].
    + by rewrite lookup_alter_eq, !lookup_insert_eq.
    + by rewrite lookup_alter_ne, !lookup_insert_ne by done.
  - unfold removeUser. simpl. rewrite Htrace. by rewrite <-app_assoc.
Qed.

Lemma handleMessage_resolved client n text now w room u :
  chatrooms w !! n = Some room →
  clients w !! client_id client = Some u →
  u ≠ "" →
  let e := message_entry (client_id client) u now text in
  ∃ w1,
    handleMessage client (Obj {| payload_chatroomName := Some n; payload_message := text |})
      now w = (Callback None None, w1) ∧
    chatrooms w1 = <[n := {| chatHistory := chatHistory room ++ [e];
                             members := members room |}]> (chatrooms w) ∧
    clients w1 = clients w ∧
    trace w1 = trace w ++ [AddEntry n e;
                           BroadcastMessage n {| chat := Some n; entry := e |} (members room)].
Proof.
  intros Hroom Huser Hu e. unfold handleMessage. simpl.
  destruct (handleEvent_resolved client n (λ _, {| fEvent := None; fMessage := text |})
              now w room u Hroom Huser Hu) as (w1 & -> & Hrooms & Hcl & Htrace).
  by exists w1.
Qed.



(** ** Handlers in sequence *)

Section sequences.
Context (client : Client) (n : string) (w : World) (room : Chatroom) (u : string).
Context (Hroom : chatrooms w !! n = Some room).
Context (Huser : clients w !! client_id client = Some u).
Context (Hu : u ≠ "").

(** X4.  Joining a room and leaving it again leaves two entries in its
    history, the join notice before the leave notice, and the caller
    outside the member set; for a caller that was not a member before,
    every member set is what it was before the two calls. *)
Theorem handleJoin_handleLeave t1 t2 :
  let cid := client_id client in
  let w2 := (handleLeave client (Some n) t2 (handleJoin client (Some n) t1 w).2).2 in
  chatrooms w2
  = <[n := {| chatHistory := chatHistory room ++
                [event_entry cid u t1 ("joined " +:+ n); event_entry cid u t2 ("left " +:+ n)];
              members := (members room ∪ {[cid]}) ∖ {[cid]} |}]> (chatrooms w) ∧
  clients w2 = clients w ∧
  (cid ∉ members room → ∀ k, members <$> chatrooms w2 !! k = members <$> chatrooms w !! k).
Proof.
  intros cid w2.
  destruct (handleJoin_resolved client n t1 w room u Hroom Huser Hu)
    as (w1 & Hjoin & Hrooms1 & Hcl1 & _).
  assert (chatrooms w1 !! n = Some {| chatHistory := chatHistory room ++
            [event_entry cid u t1 ("joined " +:+ n)];
            members := members room ∪ {[cid]} |}) as Hroom1
    by (by rewrite Hrooms1, lookup_insert_eq).
  assert (clients w1 !! client_id client = Some u) as Huser1 by (by rewrite Hcl1).
  destruct (handleLeave_resolved client n t2 w1 _ u Hroom1 Huser1 Hu)
    as (w2' & Hleave & Hrooms2 & Hcl2 & _).
  assert (w2 = w2') as -> by (unfold w2; rewrite Hjoin; cbn [snd]; by rewrite Hleave).
  assert (chatrooms w2'
          = <[n := {| chatHistory := chatHistory room ++
                        [event_entry cid u t1 ("joined " +:+ n);
                         event_entry cid u t2 ("left " +:+ n)];
                      members := (members room ∪ {[cid]}) ∖ {[cid]} |}]> (chatrooms w)) as Hw2.
  { rewrite Hrooms2, Hrooms1, insert_insert_eq. simpl. by rewrite <-app_assoc. }
  split_and!; [done | by rewrite Hcl2 |].
  intros Hout k. rewrite Hw2. destruct (decide (k = n)) as [->|Hne].
  - rewrite lookup_insert_eq, Hroom. simpl. f_equal. apply set_eq. intros x.
    rewrite elem_of_difference, elem_of_union, elem_of_singleton.
    split; [by intros [[?|?] ?] | intros Hx; split; [by left | by intros ->]].
  - by rewrite lookup_insert_ne.
Qed.


(** X6.  Two messages sent one after the other are recorded next to each
    other in the order of sending, after everything the history held. *)
Theorem handleMessage_in_order m1 m2 t1 t2 :
  let cid := client_id client in
  let send m := Obj {| payload_chatroomName := Some n; payload_message := m |} in
  let w2 := (handleMessage client (send m2) t2 (handleMessage client (send m1) t1 w).2).2 in
  getChatHistory n w2
  = chatHistory room ++ [message_entry cid u t1 m1; message_entry cid u t2 m2] ∧
  (∀ k, k ≠ n → getChatHistory k w2 = getChatHistory k w).
Proof.
  intros cid send w2.
  destruct (handleMessage_resolved client n m1 t1 w room u Hroom Huser Hu)
    as (w1 & Hsend1 & Hrooms1 & Hcl1 & _).
  assert (chatrooms w1 !! n = Some {| chatHistory := chatHistory room ++
            [message_entry cid u t1 m1]; members := members room |}) as Hroom1
    by (by rewrite Hrooms1, lookup_insert_eq).
  assert (clients w1 !! client_id client = Some u) as Huser1 by (by rewrite Hcl1).
  destruct (handleMessage_resolved client n m2 t2 w1 _ u Hroom1 Huser1 Hu)
    as (w2' & Hsend2 & Hrooms2 & _).
  assert (w2 = w2') as -> by (unfold w2, send; rewrite Hsend1; cbn [snd]; by rewrite Hsend2).
  unfold getChatHistory. rewrite Hrooms2, Hrooms1. split.
  - rewrite lookup_insert_eq. simpl. by rewrite <-app_assoc.
  - intros k Hne. by rewrite !lookup_insert_ne.
Qed.

End sequences.

Lemma handleJoin_handleLeave_witness :
  let w2 := (handleLeave ben (Some "random") "t2"
               (handleJoin ben (Some "random") "t1" lobby).2).2 in
  members <$> chatrooms w2 !! "random" = members <$> chatrooms lobby !! "random" ∧
  clients w2 = clients lobby.
Proof.
  intros w2.
  destruct (handleJoin_handleLeave ben "random" lobby
              {| chatHistory := []; members := ∅ |} "ben" eq_refl eq_refl
              ltac:(discriminate) "t1" "t2") as (_ & Hcl & Hmem).
  split; [|exact Hcl]. apply Hmem, not_elem_of_empty.
Defined.


Lemma handleMessage_in_order_witness :
  let send m := Obj {| payload_chatroomName := Some "general"; payload_message := Some m |} in
  getChatHistory "general"
    (handleMessage ben (send "two") "t2" (handleMessage ben (send "one") "t1" lobby).2).2
  = [message_entry "c2" "ben" "t1" (Some "one"); message_entry "c2" "ben" "t2" (Some "two")].
Proof.
  exact (proj1 (handleMessage_in_order ben "general" lobby
           {| chatHistory := []; members := {[ "c2" ]} |} "ben" eq_refl eq_refl
           ltac:(discriminate) (Some "one") (Some "two") "t1" "t2")).
Defined.



(** ** What every request keeps *)

(** The registry after a request. *)
Lemma clients_serve client r w :
  clients (serve client r w)
  = match r with
    | Register userName =>
        if clientManager.isUserAvailable userName w
        then <[client_id client := userName]> (clients w) else clients w
    | Disconnect _ => delete (client_id client) (clients w)
    | _ => clients w
    end.
Proof.
  destruct r as [userName|name now|name now|payload now|query|name|now]; simpl.
  - unfold handleRegister. by destruct (clientManager.isUserAvailable userName w).
  - unfold handleJoin.
    destruct (handleEvent client name _ now w) as [[reason|chatroom] w1] eqn:He;
      by destruct (handleEvent_frame _ _ _ _ _ _ _ He) as (_ & Hcl & _).
  - unfold handleLeave.
    destruct (handleEvent client name _ now w) as [[reason|chatroom] w1] eqn:He;
      by destruct (handleEvent_frame _ _ _ _ _ _ _ He) as (_ & Hcl & _).
  - apply handleMessage_frame.
  - by destruct query.
  - done.
  - apply handleDisconnect_cleanup.
Qed.

(** No request makes two connections hold the same name: registration
    is refused for a name that is held, and a disconnect only erases. *)
Lemma serve_names_unique client r w :
  names_unique w → names_unique (serve client r w).
Proof.
  intros Hw c1 c2 n. rewrite clients_serve.
  destruct r as [userName|name now|name now|payload now|query|name|now]; try apply Hw.
  - destruct (clientManager.isUserAvailable userName w) eqn:Hfree; [|apply Hw].
    pose proof (proj1 (isUserAvailable_true _ _) Hfree) as Hnone. clear Hfree.
    rename Hnone into Hfree.
    destruct (decide (client_id client = c1)) as [<-|H1];
      destruct (decide (client_id client = c2)) as [<-|H2]; try done.
    + rewrite lookup_insert_eq, lookup_insert_ne by done.
      intros [= <-] H. by apply Hfree in H.
    + rewrite lookup_insert_ne, lookup_insert_eq by done.
      intros H [= <-]. by apply Hfree in H.
    + rewrite !lookup_insert_ne by done. apply Hw.
  - intros [_ H1]%lookup_delete_Some [_ H2]%lookup_delete_Some. by eapply Hw.
Qed.

(** X8.  In every world that requests lead to from a world where names are
    unique, no two connections hold the same name. *)
Theorem reachable_names_unique w0 w :
  names_unique w0 → reachable w0 w → names_unique w.
Proof.
  intros Hw0. induction 1 as [|w client r _ IH]; [done|].
  by apply serve_names_unique.
Qed.

Lemma names_unique_lobby : names_unique lobby.
Proof.
  intros c1 c2 n. unfold lobby. simpl.
  by intros [-> _]%lookup_singleton_Some [-> _]%lookup_singleton_Some.
Qed.

Lemma reachable_names_unique_witness : names_unique lobby_ann.
Proof.
  apply (reachable_names_unique lobby lobby_ann).
  - exact names_unique_lobby.
  - exact reachable_lobby_ann.
Defined.

(** X9.  Where names are unique, a disconnect frees the name of the
    connection: the next connection that registers it is accepted. *)
Theorem handleDisconnect_frees_name client other now w userName :
  names_unique w →
  clients w !! client_id client = Some userName →
  let w' := handleDisconnect client now w in
  clientManager.isUserAvailable userName w = false ∧
  clientManager.isUserAvailable userName w' = true ∧
  (handleRegister other userName w').1
  = Callback None (Some {| identity_id := client_id other; identity_userName := userName |}).
Proof.
  intros Hw Huser w'.
  assert (clientManager.isUserAvailable userName w' = true) as Hfree.
  { apply isUserAvailable_true. intros c.
    destruct (handleDisconnect_cleanup client now w) as [Hcl _]. fold w' in Hcl. rewrite Hcl.
    intros [Hne Hc]%lookup_delete_Some. apply Hne. by eapply Hw. }
  split_and!; [|done|].
  - destruct (clientManager.isUserAvailable userName w) eqn:Hold; [|done].
    pose proof (proj1 (isUserAvailable_true _ _) Hold) as Hnone. by apply Hnone in Huser.
  - unfold handleRegister. by rewrite Hfree.
Qed.

Lemma handleDisconnect_frees_name_witness :
  (handleRegister ann "ben" (handleDisconnect ben (λ _, "t") lobby)).1
  = Callback None (Some {| identity_id := "c1"; identity_userName := "ben" |}).
Proof.
  apply (proj2 (proj2 (handleDisconnect_frees_name ben ann (λ _, "t") lobby "ben"
           names_unique_lobby eq_refl))).
Defined.

(** *** Rooms, histories and trace only grow *)

Lemma grows_refl w : grows w w.
Proof. by split_and!. Qed.

Lemma grows_trans w1 w2 w3 : grows w1 w2 → grows w2 w3 → grows w1 w3.
Proof.
  intros (Hd1 & Hh1 & Ht1) (Hd2 & Hh2 & Ht2). split_and!.
  - by rewrite Hd2.
  - intros n. transitivity (getChatHistory n w2); [apply Hh1 | apply Hh2].
  - by transitivity (trace w2).
Qed.

(** A step that alters rooms in place, keeps or extends each history at
    the end, and extends the trace. *)
Lemma grows_alter (f : Chatroom → Chatroom) k w w' extra :
  chatrooms w' = alter f k (chatrooms w) →
  (∀ r, chatHistory r `prefix_of` chatHistory (f r)) →
  trace w' = trace w ++ extra →
  grows w w'.
Proof.
  intros Hrooms Hf Htrace. split_and!.
  - rewrite Hrooms. apply dom_alter_L.
  - intros n. unfold getChatHistory. rewrite Hrooms.
    destruct (decide (n = k)) as [->|Hne].
    + rewrite lookup_alter_eq. destruct (chatrooms w !! k); simpl; [apply Hf | done].
    + by rewrite lookup_alter_ne.
  - rewrite Htrace. by apply prefix_app_r.
Qed.

Lemma grows_handleEvent_then chatroomName createEntry now v w :
  grows w (handleEvent_then chatroomName createEntry now v w).
Proof.
  eapply grows_alter.
  - reflexivity.
  - intros r. simpl. by apply prefix_app_r.
  - apply trace_handleEvent_then.
Qed.

Lemma grows_handleEvent client chatroomName createEntry now w res w1 :
  handleEvent client chatroomName createEntry now w = (res, w1) → grows w w1.
Proof.
  destruct res as [reason|chatroom]; intros He.
  - apply handleEvent_inl in He as ->. apply grows_refl.
  - apply handleEvent_inr in He as (room & u & _ & _ & _ & _ & ->).
    apply grows_handleEvent_then.
Qed.

Lemma grows_foldl_resume_leave now (pending : list (string * Settled Validated)) w :
  grows w (foldl (resume_leave now) w pending).
Proof.
  revert w. induction pending as [|p pending IH]; intros w; [apply grows_refl|].
  cbn [foldl]. eapply grows_trans; [|apply IH].
  unfold resume_leave. destruct p as [n [reason|v]]; simpl.
  - apply grows_refl.
  - apply grows_handleEvent_then.
Qed.

Lemma grows_handleDisconnect client now w :
  grows w (handleDisconnect client now w).
Proof.
  unfold handleDisconnect. eapply grows_trans; [|apply grows_foldl_resume_leave].
  split_and!; simpl.
  - apply dom_fmap_L.
  - intros n. unfold getChatHistory. simpl. rewrite lookup_fmap.
    by destruct (chatrooms w !! n).
  - done.
Qed.

Lemma grows_serve client r w : grows w (serve client r w).
Proof.
  destruct r as [userName|name now|name now|payload now|query|name|now]; simpl.
  - unfold handleRegister. destruct (negb _); simpl; [apply grows_refl|].
    unfold grows, getChatHistory. simpl. by split_and!.
  - unfold handleJoin.
    destruct (handleEvent client name _ now w) as [[reason|chatroom] w1] eqn:He;
      apply grows_handleEvent in He; [done|]. simpl.
    eapply grows_trans; [exact He|].
    by apply (grows_alter (with_members (λ m, m ∪ {[client_id client]})) chatroom w1 _
                [AddUser chatroom (client_id client)]).
  - unfold handleLeave.
    destruct (handleEvent client name _ now w) as [[reason|chatroom] w1] eqn:He;
      apply grows_handleEvent in He; [done|]. simpl.
    eapply grows_trans; [exact He|].
    by apply (grows_alter (with_members (λ m, m ∖ {[client_id client]})) chatroom w1 _
                [RemoveUser chatroom (client_id client)]).
  - unfold handleMessage. destruct payload as [| |o]; [|apply grows_refl|].
    all: match goal with
         | |- context [handleEvent ?c ?n ?ce ?t ?w0] =>
             destruct (handleEvent c n ce t w0) as [[reason|chatroom] w1] eqn:He
         end; by apply grows_handleEvent in He.
  - destruct query; apply grows_refl.
  - apply grows_refl.
  - apply grows_handleDisconnect.
Qed.

Lemma reachable_grows w0 w : reachable w0 w → grows w0 w.
Proof.
  induction 1 as [|w client r _ IH]; [apply grows_refl|].
  eapply grows_trans; [exact IH | apply grows_serve].
Qed.

(** X10.  No sequence of requests creates a room or removes one: the store
    holds the rooms it started with. *)
Theorem reachable_rooms_fixed w0 w n :
  reachable w0 w → (is_Some (chatrooms w !! n) ↔ is_Some (chatrooms w0 !! n)).
Proof.
  intros (Hdom & _)%reachable_grows. by rewrite <-!elem_of_dom, Hdom.
Qed.

Lemma reachable_rooms_fixed_witness :
  is_Some (chatrooms lobby_ann !! "ghost") ↔ is_Some (chatrooms lobby !! "ghost").
Proof.
  exact (reachable_rooms_fixed lobby lobby_ann "ghost" reachable_lobby_ann).
Defined.

(** X11.  Histories are append-only, and so is the trace of calls: whatever
    requests are served, each history and the trace keep what they held
    as a prefix. *)
Theorem reachable_history_append_only w0 w :
  reachable w0 w →
  (∀ n, getChatHistory n w0 `prefix_of` getChatHistory n w) ∧
  trace w0 `prefix_of` trace w.
Proof.
  by intros (_ & Hhist & Htrace)%reachable_grows.
Qed.

Lemma reachable_history_append_only_witness :
  getChatHistory "general" lobby `prefix_of` getChatHistory "general" lobby_ann.
Proof.
  exact (proj1 (reachable_history_append_only lobby lobby_ann reachable_lobby_ann) "general").
Defined.

(** X12.  A second disconnect of the same connection changes nothing: there
    is no room left to notify, no member and no binding left to remove. *)
Theorem handleDisconnect_idempotent client now now' w :
  handleDisconnect client now' (handleDisconnect client now w)
  = handleDisconnect client now w.
Proof.
  destruct (handleDisconnect_cleanup client now w) as [Hcl Hrooms]. cbv zeta in Hcl, Hrooms.
  destruct (handleDisconnect client now w) as [cl rs tr]. simpl in Hcl, Hrooms.
  rewrite handleDisconnect_rejected.
  2:{ left. simpl. rewrite Hcl. apply lookup_delete_eq. }
  unfold clientManager.removeClient, chatroomManager.removeClient. simpl. f_equal.
  - rewrite Hcl. apply map_eq. intros c. destruct (decide (c = client_id client)) as [->|Hne].
    + by rewrite !lookup_delete_eq.
    + by rewrite !lookup_delete_ne.
  - apply map_eq. intros k. rewrite lookup_fmap.
    destruct (Hrooms k) as (f & _ & _ & ->).
    destruct (chatrooms w !! k) as [r|]; simpl; [|done].
    unfold with_members. simpl. do 2 f_equal. apply set_eq. intros x.
    rewrite !elem_of_difference. tauto.
Qed.

(** *** Entries are attributed *)

Lemma elem_of_getChatHistory_handleEvent_then chatroomName createEntry now v w k x :
  x ∈ getChatHistory k (handleEvent_then chatroomName createEntry now v w) →
  x ∈ getChatHistory k w ∨
  x = {| clientId := vClientId v; userName := vUserName v; timestamp := now;
         event := fEvent (createEntry ()); message := fMessage (createEntry ()) |}.
Proof.
  unfold getChatHistory, handleEvent_then, broadcastMessage, addEntry. simpl.
  destruct (decide (k = vChatroom v)) as [->|Hne].
  - rewrite lookup_alter_eq. destruct (chatrooms w !! vChatroom v) as [r|]; simpl; [|by left].
    intros [?| ->%list_elem_of_singleton]%elem_of_app; [by left | by right].
  - rewrite lookup_alter_ne by done. by left.
Qed.

Lemma entries_attributed_handleEvent_then chatroomName createEntry now v w :
  vUserName v ≠ "" →
  fEvent (createEntry ()) = None ∨ fMessage (createEntry ()) = None →
  entries_attributed w →
  entries_attributed (handleEvent_then chatroomName createEntry now v w).
Proof.
  intros Hu Hfields Hw k x [Hold| ->]%elem_of_getChatHistory_handleEvent_then.
  - by eapply Hw.
  - by split.
Qed.

Lemma entries_attributed_handleEvent client chatroomName createEntry now w res w1 :
  handleEvent client chatroomName createEntry now w = (res, w1) →
  fEvent (createEntry ()) = None ∨ fMessage (createEntry ()) = None →
  entries_attributed w → entries_attributed w1.
Proof.
  destruct res as [reason|chatroom]; intros He Hfields Hw.
  - by apply handleEvent_inl in He as ->.
  - apply handleEvent_inr in He as (room & u & _ & _ & _ & Hu & ->).
    by apply entries_attributed_handleEvent_then.
Qed.

Lemma entries_attributed_histories w w' :
  (∀ n, getChatHistory n w' = getChatHistory n w) →
  entries_attributed w → entries_attributed w'.
Proof. intros Hsame Hw n e. rewrite Hsame. apply Hw. Qed.

Lemma getChatHistory_with_members f k w w' n :
  chatrooms w' = alter (with_members f) k (chatrooms w) →
  getChatHistory n w' = getChatHistory n w.
Proof.
  intros Hrooms. unfold getChatHistory. rewrite Hrooms.
  destruct (decide (n = k)) as [->|Hne].
  - rewrite lookup_alter_eq. by destruct (chatrooms w !! k).
  - by rewrite lookup_alter_ne.
Qed.

Lemma entries_attributed_foldl_resume_leave now
    (pending : list (string * Settled Validated)) w :
  Forall (λ p, ∀ v, p.2 = inr v → vUserName v ≠ "") pending →
  entries_attributed w →
  entries_attributed (foldl (resume_leave now) w pending).
Proof.
  revert w. induction pending as [|p pending IH]; intros w Hp Hw; [done|].
  apply Forall_cons in Hp as [Hp Hrest]. cbn [foldl]. apply IH; [done|].
  unfold resume_leave. destruct p as [n [reason|v]]; simpl; [done|].
  apply entries_attributed_handleEvent_then; [by apply Hp | by right | done].
Qed.

Lemma serve_entries_attributed client r w :
  entries_attributed w → entries_attributed (serve client r w).
Proof.
  intros Hw. destruct r as [userName|name now|name now|payload now|query|name|now]; simpl.
  - unfold handleRegister. by destruct (negb _).
  - unfold handleJoin.
    destruct (handleEvent client name _ now w) as [[reason|chatroom] w1] eqn:He;
      apply entries_attributed_handleEvent in He; try done; try by right.
    simpl. eapply entries_attributed_histories; [|exact He].
    intros n. by eapply getChatHistory_with_members.
  - unfold handleLeave.
    destruct (handleEvent client name _ now w) as [[reason|chatroom] w1] eqn:He;
      apply entries_attributed_handleEvent in He; try done; try by right.
    simpl. eapply entries_attributed_histories; [|exact He].
    intros n. by eapply getChatHistory_with_members.
  - unfold handleMessage. destruct payload as [| |o]; [|done|].
    all: match goal with
         | |- context [handleEvent ?c ?n ?ce ?t ?w0] =>
             destruct (handleEvent c n ce t w0) as [[reason|chatroom] w1] eqn:He
         end; apply entries_attributed_handleEvent in He; try done; by left.
  - by destruct query.
  - done.
  - unfold handleDisconnect. apply entries_attributed_foldl_resume_leave.
    + apply Forall_fmap, Forall_forall. intros [n room] _ v. simpl. intros Hv.
      by apply ensureValid_inr in Hv as (? & ? & u & _ & _ & _ & Hu & ->).
    + eapply entries_attributed_histories; [|exact Hw].
      intros n. unfold getChatHistory. simpl. rewrite lookup_fmap.
      by destruct (chatrooms w !! n).
Qed.

(** X13.  No entry is ever recorded under the empty name or with both an
    event and a message: in every world that requests lead to from a
    world whose entries are attributed, all entries are. *)
Theorem reachable_entries_attributed w0 w :
  entries_attributed w0 → reachable w0 w → entries_attributed w.
Proof.
  intros Hw0. induction 1 as [|w client r _ IH]; [done|].
  by apply serve_entries_attributed.
Qed.

Lemma entries_attributed_lobby : entries_attributed lobby.
Proof.
  intros n e. unfold getChatHistory, lobby. simpl.
  destruct (decide (n = "general")) as [->|Hg].
  - rewrite lookup_insert_eq. simpl. by intros ?%elem_of_nil.
  - rewrite lookup_insert_ne by done. destruct (decide (n = "random")) as [->|Hr].
    + rewrite lookup_singleton_eq. simpl. by intros ?%elem_of_nil.
    + rewrite lookup_singleton_ne by done. simpl. by intros ?%elem_of_nil.
Qed.

Lemma reachable_entries_attributed_witness : entries_attributed lobby_ann.
Proof.
  apply (reachable_entries_attributed lobby lobby_ann).
  - exact entries_attributed_lobby.
  - exact reachable_lobby_ann.
Defined.

(** ** Looking a room up by name *)

Lemma filter_summaries_absent f (l : list (string * Chatroom)) :
  f ∉ l.*1 →
  List.filter (λ c, bool_decide (name c = f)) ((λ kv, summary_of kv.1 kv.2) <$> l) = [].
Proof.
  induction l as [|[k r] l IH]; [done|]. rewrite fmap_cons, not_elem_of_cons.
  intros [Hne Hout]. simpl. rewrite bool_decide_eq_false_2 by done. by apply IH.
Qed.

Lemma filter_summaries_present f room (l : list (string * Chatroom)) :
  NoDup l.*1 →
  (f, room) ∈ l →
  List.filter (λ c, bool_decide (name c = f)) ((λ kv, summary_of kv.1 kv.2) <$> l)
  = [summary_of f room].
Proof.
  induction l as [|[k r] l IH]; [by intros _ ?%elem_of_nil|].
  rewrite fmap_cons, NoDup_cons. intros [Hk Hnd] Hin. simpl.
  apply elem_of_cons in Hin as [[= <- <-]|Hin].
  - rewrite bool_decide_eq_true_2 by done. f_equal. by apply filter_summaries_absent.
  - rewrite bool_decide_eq_false_2; [by apply IH|].
    simpl. intros ->. apply Hk. apply list_elem_of_fmap. by exists (f, room).
Qed.

Lemma serializeChatrooms_named f w :
  List.filter (λ c, bool_decide (name c = f)) (chatroomManager.serializeChatrooms w)
  = match chatrooms w !! f with
    | Some room => [summary_of f room]
    | None => []
    end.
Proof.
  unfold chatroomManager.serializeChatrooms.
  destruct (chatrooms w !! f) as [room|] eqn:Hroom.
  - apply (filter_summaries_present f room (map_to_list (chatrooms w))).
    + apply NoDup_fst_map_to_list.
    + by apply elem_of_map_to_list.
  - apply (filter_summaries_absent f (map_to_list (chatrooms w))).
    intros ([k r] & -> & Hin)%list_elem_of_fmap. apply elem_of_map_to_list in Hin.
    simpl in Hroom. congruence.
Qed.

Lemma handleGetChatrooms_named f w :
  f ≠ "" →
  handleGetChatrooms (Obj {| chatroomNameFilter := Some f |}) w
  = (Callback None
       (Some match chatrooms w !! f with
             | Some room => [summary_of f room]
             | None => []
             end), w).
Proof.
  intros Hf. unfold handleGetChatrooms, filter_keeps. simpl.
  assert (truthy f = true) as -> by (by destruct f).
  by rewrite serializeChatrooms_named.
Qed.

(** X14.  Asked for a non-empty name, [handleGetChatrooms] answers with the one
    summary of the room of that name, built from its member set and its
    history, or with the empty list when the store has no such room; the
    world is left as it was. *)
Theorem handleGetChatrooms_by_name f w :
  f ≠ "" →
  handleGetChatrooms (Obj {| chatroomNameFilter := Some f |}) w
  = (Callback None
       (Some match chatrooms w !! f with
             | Some room => [summary_of f room]
             | None => []
             end), w) ∧
  (∀ result,
     (handleGetChatrooms (Obj {| chatroomNameFilter := Some f |}) w).1
     = Callback None (Some result) →
     (length result ≤ 1)%nat ∧ ∀ c, c ∈ result → name c = f).
Proof.
  intros Hf. rewrite handleGetChatrooms_named by done. split; [done|].
  intros result [= <-]. destruct (chatrooms w !! f) as [room|]; simpl.
  - split; [lia|]. by intros c ->%list_elem_of_singleton.
  - split; [lia|]. by intros c ?%elem_of_nil.
Qed.

Lemma handleGetChatrooms_by_name_witness :
  handleGetChatrooms (Obj {| chatroomNameFilter := Some "general" |}) lobby
  = (Callback None (Some [{| name := "general"; memberCount := 1; historyLength := 0 |}]), lobby)
  ∧ handleGetChatrooms (Obj {| chatroomNameFilter := Some "ghost" |}) lobby
  = (Callback None (Some []), lobby).
Proof.
  split.
  - apply (proj1 (handleGetChatrooms_by_name "general" lobby ltac:(discriminate))).
  - apply (proj1 (handleGetChatrooms_by_name "ghost" lobby ltac:(discriminate))).
Defined.

(** X15.  After a join that is accepted, the listing of the room shows one
    more history entry, and one more member when the connection was not
    a member before; a repeated join leaves the member count as it was. *)
Theorem handleJoin_then_listed client n now w room u :
  n ≠ "" →
  chatrooms w !! n = Some room →
  clients w !! client_id client = Some u →
  u ≠ "" →
  let w1 := (handleJoin client (Some n) now w).2 in
  (handleGetChatrooms (Obj {| chatroomNameFilter := Some n |}) w1).1
  = Callback None
      (Some [{| name := n;
                memberCount := if decide (client_id client ∈ members room)
                               then size (members room) else S (size (members room));
                historyLength := S (length (chatHistory room)) |}]).
Proof.
  intros Hn Hroom Huser Hu w1.
  destruct (handleJoin_resolved client n now w room u Hroom Huser Hu)
    as (w1' & Hjoin & Hrooms & _).
  assert (w1 = w1') as -> by (unfold w1; by rewrite Hjoin).
  rewrite handleGetChatrooms_named by done. simpl.
  rewrite Hrooms, lookup_insert_eq. unfold summary_of. simpl.
  rewrite length_app. simpl. do 4 f_equal; [|lia].
  case_decide as Hin.
  - f_equal. apply set_eq. intros x. rewrite elem_of_union, elem_of_singleton.
    split; [by intros [?| ->] | by left].
  - rewrite size_union by (by apply disjoint_singleton_r).
    rewrite size_singleton. lia.
Qed.

Lemma handleJoin_then_listed_witness :
  (handleGetChatrooms (Obj {| chatroomNameFilter := Some "random" |})
     (handleJoin ben (Some "random") "t" lobby).2).1
  = Callback None (Some [{| name := "random"; memberCount := 1; historyLength := 1 |}]).
Proof.
  etrans.
  - apply (handleJoin_then_listed ben "random" "t" lobby
             {| chatHistory := []; members := ∅ |} "ben");
      [discriminate | reflexivity | reflexivity | discriminate].
  - vm_compute. reflexivity.
Defined.

Lemma isUserAvailable_clients userName w w' :
  clients w' = clients w →
  clientManager.isUserAvailable userName w' = clientManager.isUserAvailable userName w.
Proof. intros Hcl. unfold clientManager.isUserAvailable. by rewrite Hcl. Qed.

(** X16.  An entry keeps the name under which it was written: when a
    connection sends a message, registers again under another free
    name and sends a second message, the first entry carries the old
    name and the second the new one. *)
Theorem handleRegister_renames_later_entries client n w room u u' m1 m2 t1 t2 :
  chatrooms w !! n = Some room →
  clients w !! client_id client = Some u →
  u ≠ "" →
  clientManager.isUserAvailable u' w = true →
  u' ≠ "" →
  let cid := client_id client in
  let send m := Obj {| payload_chatroomName := Some n; payload_message := m |} in
  let w1 := (handleMessage client (send m1) t1 w).2 in
  let w2 := (handleRegister client u' w1).2 in
  let w3 := (handleMessage client (send m2) t2 w2).2 in
  getChatHistory n w3
  = chatHistory room ++ [message_entry cid u t1 m1; message_entry cid u' t2 m2].
Proof.
  intros Hroom Huser Hu Hfree Hu' cid send w1 w2 w3.
  destruct (handleMessage_resolved client n m1 t1 w room u Hroom Huser Hu)
    as (w1' & Hsend1 & Hrooms1 & Hcl1 & _).
  assert (w1 = w1') as -> by (unfold w1, send; by rewrite Hsend1).
  assert (w2 = clientManager.registerClient client u' w1') as Hw2.
  { unfold w2, handleRegister. by rewrite (isUserAvailable_clients u' w w1' Hcl1), Hfree. }
  assert (chatrooms w2 !! n = Some {| chatHistory := chatHistory room ++
            [message_entry cid u t1 m1]; members := members room |}) as Hroom2.
  { rewrite Hw2. simpl. by rewrite Hrooms1, lookup_insert_eq. }
  assert (clients w2 !! client_id client = Some u') as Huser2.
  { rewrite Hw2. simpl. apply lookup_insert_eq. }
  destruct (handleMessage_resolved client n m2 t2 w2 _ u' Hroom2 Huser2 Hu')
    as (w3' & Hsend2 & Hrooms3 & _).
  assert (w3 = w3') as -> by (unfold w3, send; by rewrite Hsend2).
  unfold getChatHistory. rewrite Hrooms3, lookup_insert_eq. simpl. by rewrite <-app_assoc.
Qed.

Lemma handleRegister_renames_later_entries_witness :
  let send m := Obj {| payload_chatroomName := Some "general"; payload_message := Some m |} in
  getChatHistory "general"
    (handleMessage ben (send "two") "t2"
       (handleRegister ben "benjamin"
          (handleMessage ben (send "one") "t1" lobby).2).2).2
  = [message_entry "c2" "ben" "t1" (Some "one");
     message_entry "c2" "benjamin" "t2" (Some "two")].
Proof.
  apply (handleRegister_renames_later_entries ben "general" lobby
           {| chatHistory := []; members := {[ "c2" ]} |} "ben" "benjamin"
           (Some "one") (Some "two") "t1" "t2");
    [reflexivity | reflexivity | discriminate | reflexivity | discriminate].
Defined.

(** ** The chat room view *)

Section view.
Context {IChat IChatroom : Type}.
Implicit Types (s : ChatroomView.State IChat IChatroom).
Implicit Types (evs : list (ChatroomView.Event IChat IChatroom)).

(** No callback changes the room name, clears [failedToJoin] or sets
    [isLoading]; the only calls a callback makes on the socket client
    are [message] and [getChatroomByName], and they name the room of the
    view. *)
Lemma view_step_frame ev s :
  let r := ChatroomView.step ev s in
  ChatroomView.roomName r.1 = ChatroomView.roomName s ∧
  (ChatroomView.failedToJoin s = true → ChatroomView.failedToJoin r.1 = true) ∧
  ChatroomView.isLoading r.1
  = ChatroomView.isLoading s && negb (ChatroomView.is_info ev) ∧
  (∀ c n, c ∈ r.2 → ChatroomView.room_of c = Some n → n = ChatroomView.roomName s) ∧
  (∀ c n, c ∈ r.2 → c ≠ ChatroomView.Join n ∧ c ≠ ChatroomView.Leave n).
Proof.
  destruct ev as [|chat|[e|] chats|err rooms|message]; simpl.
  - split_and!; [done | done | by rewrite andb_true_r | |].
    + by intros c n ->%list_elem_of_singleton [= <-].
    + by intros c n ->%list_elem_of_singleton.
  - split_and!; [done | done | by rewrite andb_true_r | |]; by intros ?? ?%elem_of_nil.
  - destruct (truthy e); simpl.
    + split_and!; [done | done | by rewrite andb_true_r | |].
      * by intros c n ->%list_elem_of_singleton [=].
      * by intros c n ->%list_elem_of_singleton.
    + split_and!; [done | done | by rewrite andb_true_r | |]; by intros ?? ?%elem_of_nil.
  - split_and!; [done | done | by rewrite andb_true_r | |]; by intros ?? ?%elem_of_nil.
  - split_and!; [done | done | by rewrite andb_false_r | |]; by intros ?? ?%elem_of_nil.
  - split_and!; [done | done | by rewrite andb_true_r | |].
    + by intros c n ->%list_elem_of_singleton [= <-].
    + by intros c n ->%list_elem_of_singleton.
Qed.

Lemma view_run_cons ev evs s :
  ChatroomView.run (ev :: evs) s
  = ((ChatroomView.run evs (ChatroomView.step ev s).1).1,
     (ChatroomView.step ev s).2 ++ (ChatroomView.run evs (ChatroomView.step ev s).1).2).
Proof.
  simpl. destruct (ChatroomView.step ev s) as [s1 cmds1]. simpl.
  by destruct (ChatroomView.run evs s1).
Qed.

Lemma view_run_frame evs s :
  let r := ChatroomView.run evs s in
  ChatroomView.roomName r.1 = ChatroomView.roomName s ∧
  (ChatroomView.failedToJoin s = true → ChatroomView.failedToJoin r.1 = true) ∧
  ChatroomView.isLoading r.1
  = ChatroomView.isLoading s && forallb (λ ev, negb (ChatroomView.is_info ev)) evs ∧
  (∀ c n, c ∈ r.2 → ChatroomView.room_of c = Some n → n = ChatroomView.roomName s) ∧
  (∀ c n, c ∈ r.2 → c ≠ ChatroomView.Join n ∧ c ≠ ChatroomView.Leave n).
Proof.
  revert s. induction evs as [|ev evs IH]; intros s.
  - simpl. split_and!; [done | done | by rewrite andb_true_r | |];
      by intros ?? ?%elem_of_nil.
  - cbv zeta. rewrite view_run_cons. cbn [fst snd forallb].
    destruct (view_step_frame ev s) as (Hn1 & Hf1 & Hl1 & Hc1 & Hj1).
    destruct (IH (ChatroomView.step ev s).1) as (Hn2 & Hf2 & Hl2 & Hc2 & Hj2).
    split_and!.
    + by rewrite Hn2.
    + intros Hs. by apply Hf2, Hf1.
    + by rewrite Hl2, Hl1, andb_assoc.
    + intros c n [Hc|Hc]%elem_of_app Hroom.
      * by eapply Hc1.
      * rewrite <-Hn1. by eapply Hc2.
    + intros c n [Hc|Hc]%elem_of_app; [by apply Hj1 | by apply Hj2].
Qed.

(** X19.  Once the join has been answered with an error, the error is shown,
    the history is emptied, and whatever reaches the view afterwards, the
    chat is never rendered again. *)
Theorem view_failed_join_is_final s err chats evs :
  err ≠ "" →
  let r := ChatroomView.step (ChatroomView.JoinAnswered (Some err) chats) s in
  r.2 = [ChatroomView.ShowError err] ∧
  ChatroomView.chatHistory r.1 = [] ∧
  ∀ chatroom cs,
    ChatroomView.render (ChatroomView.run evs r.1).1 ≠ ChatroomView.Chat chatroom cs.
Proof.
  intros Herr r. unfold r. simpl.
  assert (truthy err = true) as -> by (by destruct err). simpl.
  split_and!; [done | done |]. intros chatroom cs.
  match goal with |- context [ChatroomView.run evs ?s1] =>
    destruct (view_run_frame evs s1) as (_ & Hfailed & _);
    unfold ChatroomView.render; rewrite Hfailed by done;
    destruct (ChatroomView.isLoading (ChatroomView.run evs s1).1); discriminate
  end.
Qed.

(** X20.  The loading indicator is what the view renders until the room
    description is answered for the first time, and never after. *)
Theorem view_loading_until_info s evs :
  (∃ text, ChatroomView.render (ChatroomView.run evs s).1 = ChatroomView.Loading text) ↔
  ChatroomView.isLoading s = true ∧ Forall (λ ev, ChatroomView.is_info ev = false) evs.
Proof.
  destruct (view_run_frame evs s) as (_ & _ & Hloading & _).
  cbv zeta in Hloading. unfold ChatroomView.render. rewrite Hloading.
  assert (forallb (λ ev, negb (ChatroomView.is_info ev)) evs = true ↔
          Forall (λ ev, ChatroomView.is_info ev = false) evs) as Hall.
  { rewrite forallb_forall, Forall_forall. split; intros H ev Hev.
    - apply negb_true_iff, H. by apply list_elem_of_In.
    - apply negb_true_iff, H. by apply list_elem_of_In. }
  rewrite <-Hall, <-andb_true_iff.
  destruct (ChatroomView.isLoading s && _); [split; [done | by eexists]|].
  split; [|done]. intros [text Htext].
  by destruct (ChatroomView.failedToJoin (ChatroomView.run evs s).1).
Qed.

(** X21.  Chats that the handler receives are appended in the order of their
    arrival, and nothing is sent; an answer to the join without an error
    replaces whatever the view held by the history it carries. *)
Theorem view_chats_in_order s (cs : list IChat) :
  ChatroomView.run (ChatroomView.ChatReceived <$> cs) s
  = ({| ChatroomView.roomName := ChatroomView.roomName s;
        ChatroomView.room := ChatroomView.room s;
        ChatroomView.failedToJoin := ChatroomView.failedToJoin s;
        ChatroomView.isLoading := ChatroomView.isLoading s;
        ChatroomView.chatHistory := ChatroomView.chatHistory s ++ cs |}, []) ∧
  ∀ evs chats,
    ChatroomView.chatHistory
      (ChatroomView.run (evs ++ ChatroomView.JoinAnswered None chats
                             :: (ChatroomView.ChatReceived <$> cs)) s).1
    = chats ++ cs.
Proof.
  assert (∀ s, ChatroomView.run (ChatroomView.ChatReceived <$> cs) s
    = ({| ChatroomView.roomName := ChatroomView.roomName s;
          ChatroomView.room := ChatroomView.room s;
          ChatroomView.failedToJoin := ChatroomView.failedToJoin s;
          ChatroomView.isLoading := ChatroomView.isLoading s;
          ChatroomView.chatHistory := ChatroomView.chatHistory s ++ cs |}, [])) as Hrun.
  { clear s. induction cs as [|c cs IH]; intros s.
    - simpl. rewrite app_nil_r. by destruct s.
    - rewrite fmap_cons, view_run_cons, IH. simpl. by rewrite <-app_assoc. }
  split; [apply Hrun|]. intros evs chats. revert s.
  induction evs as [|ev evs IH]; intros s.
  - simpl app. rewrite view_run_cons, Hrun. done.
  - rewrite <-app_comm_cons, view_run_cons. cbn [fst]. apply IH.
Qed.

(** X22.  From construction to unmounting the view names no room but its own
    in any call on the socket client; it joins that room once it is
    mounted, and on unmounting it leaves the room exactly when the room
    name is not empty. *)
Theorem view_life_own_room (name : string) evs :
  (∀ c n, c ∈ ChatroomView.life name evs → ChatroomView.room_of c = Some n → n = name) ∧
  ChatroomView.Join name ∈ ChatroomView.life name evs ∧
  (ChatroomView.Leave name ∈ ChatroomView.life name evs ↔ name ≠ "").
Proof.
  unfold ChatroomView.life, ChatroomView.constructor, ChatroomView.componentDidMount,
    ChatroomView.componentWillUnmount.
  set (s0 := {| ChatroomView.roomName := name; ChatroomView.room := None;
                ChatroomView.failedToJoin := false; ChatroomView.isLoading := true;
                ChatroomView.chatHistory := [] |} : ChatroomView.State IChat IChatroom).
  destruct (view_run_frame evs s0) as (Hname & _ & _ & Hcmds & Hnone).
  destruct (ChatroomView.run evs s0) as [s2 cmds2]. simpl in Hname, Hcmds, Hnone.
  rewrite Hname. split_and!.
  - intros c n. rewrite !elem_of_app, !elem_of_cons, elem_of_nil.
    intros [[->|[]]|[[->|[->|[]]]|[Hc| [->|Hc]]]]; simpl; try done.
    + congruence.
    + by apply Hcmds.
    + destruct (truthy name); simpl in Hc; [|by apply elem_of_nil in Hc].
      apply list_elem_of_singleton in Hc as ->. simpl. congruence.
  - rewrite !elem_of_app, !elem_of_cons. right. left. right. by left.
  - split.
    + rewrite !elem_of_app, !elem_of_cons, elem_of_nil.
      intros [[[=]|[]]|[[[=]|[[=]|[]]]|[Hc| [[=]|Hc]]]].
      * by destruct (Hnone _ name Hc) as [_ Hleave].
      * intros ->. by apply elem_of_nil in Hc.
    + intros Hne. rewrite !elem_of_app, !elem_of_cons. do 4 right.
      assert (truthy name = true) as -> by (by destruct name).
      by apply list_elem_of_singleton.
Qed.

End view.

Lemma view_failed_join_is_final_witness :
  let s := (ChatroomView.constructor (IChat := string) (IChatroom := string) "ghost").1 in
  let r := ChatroomView.step (ChatroomView.JoinAnswered (Some "Invalid chatroom name: ghost") []) s in
  r.2 = [ChatroomView.ShowError "Invalid chatroom name: ghost"] ∧
  ChatroomView.render
    (ChatroomView.run [ChatroomView.ChatroomInfoAnswered None []; ChatroomView.ChatReceived "hi"]
       r.1).1
  ≠ ChatroomView.Chat None ["hi"].
Proof.
  intros s r.
  destruct (view_failed_join_is_final s "Invalid chatroom name: ghost" []
              [ChatroomView.ChatroomInfoAnswered None []; ChatroomView.ChatReceived "hi"]
              ltac:(discriminate)) as (Hshow & _ & Hrender).
  split; [exact Hshow | apply Hrender].
Defined.

Lemma view_loading_until_info_witness :
  let s := (ChatroomView.constructor (IChat := string) (IChatroom := string) "general").1 in
  ∃ text,
    ChatroomView.render
      (ChatroomView.run [ChatroomView.TimerFired; ChatroomView.JoinAnswered None ["joined"]] s).1
    = ChatroomView.Loading text.
Proof.
  intros s.
  apply (proj2 (view_loading_until_info s
           [ChatroomView.TimerFired; ChatroomView.JoinAnswered None ["joined"]])).
  split; [reflexivity|]. repeat constructor.
Defined.

Lemma view_life_own_room_witness :
  ChatroomView.Leave "general"
  ∈ ChatroomView.life (IChat := string) (IChatroom := string) "general"
      [ChatroomView.TimerFired; ChatroomView.MessageEntered "hi"].
Proof.
  apply (proj2 (proj2 (view_life_own_room (IChat := string) (IChatroom := string) "general"
           [ChatroomView.TimerFired; ChatroomView.MessageEntered "hi"]))).
  discriminate.
Defined.

(** ** The view and the server *)

